(** * SilverStream: the catalog browser's filter, option and page logic

    A shallow embedding of [app/routes/home.tsx] (the [Home] component) and
    of the detail route (the [MovieDetail] component): the derived values
    [filterOptions], [filteredMovies], [totalPages] and [currentMovies], the
    hooks that keep the filter fields, the query string and the page number
    in step, and the title lookup of the detail page.

    Conventions of the model.
    - A JavaScript string is a Rocq [string], the sequence of its code
      units, a unit being a character of [ascii]. The built-ins that search
      and compare strings work unit by unit, whatever the units are, and
      are defined here. [toLowerCase] and [decodeURIComponent] follow the
      tables of the runtime and are taken as given: the properties hold for
      whatever they return.
    - A JavaScript number that holds a count, an index or a page is an
      integer of [Z]; [NaN] is [None] in [option Z].
    - An array is a [list]; a [Set] is the list of its members in insertion
      order, which is the order [Array.from] reads them in.
    - React state is a record; an event handler and the effects it
      triggers are functions from state to state. *)

From Stdlib Require Import ZArith QArith Qround Lia Ascii Sorted Permutation.
From stdpp Require Import base list strings sorting pretty gmap.

Local Open Scope Z_scope.

(** ** Built-ins of the language runtime *)

(** What a [throw] raises and a [catch] clause receives: an [Error] object
    with its message, or some other value. *)
Inductive Thrown :=
  | Error (message : string)
  | NotAnError.

Module JS.

(** [String.prototype.toLowerCase] belongs to the runtime. It applies the
    Unicode case mapping to the whole string: it lowers letters outside
    A-Z as well, and the form it gives a letter can depend on the letters
    around it. The program is modelled over any such function. *)
Class Runtime := { toLowerCase : string → string }.

(** What [toLowerCase] does to text whose units are all below 128: A-Z
    become a-z, unit by unit, and every other unit stays. *)
Definition toLowerCaseChar_ascii (c : ascii) : ascii :=
  let n := N_of_ascii c in
  if ((65 <=? n) && (n <=? 90))%N then ascii_of_N (n + 32) else c.

Fixpoint toLowerCase_ascii (s : string) : string :=
  match s with
  | EmptyString => EmptyString
  | String c rest => String (toLowerCaseChar_ascii c) (toLowerCase_ascii rest)
  end.

(** The runtime of the examples, whose text is in that range. *)
Definition ascii_runtime : Runtime := {| toLowerCase := toLowerCase_ascii |}.

(** [String.prototype.includes(search)]: does [search] occur in [s] at some
    position, scanning from position 0. *)
Fixpoint String_includes (s search : string) : bool :=
  String.prefix search s ||
  match s with
  | EmptyString => false
  | String _ rest => String_includes rest search
  end.

(** [String.prototype.endsWith(suffix)]: [s] from some position on is
    [suffix]. *)
Fixpoint String_endsWith (s suffix : string) : bool :=
  String.eqb s suffix ||
  match s with
  | EmptyString => false
  | String _ rest => String_endsWith rest suffix
  end.

(** [Array.prototype.includes(x)] on an array of strings. *)
Definition Array_includes (l : list string) (x : string) : bool :=
  existsb (String.eqb x) l.

(** [Array.prototype.find(p)]: the first element that satisfies [p], or
    [undefined] (here [None]). *)
Fixpoint Array_find {A} (p : A → bool) (l : list A) : option A :=
  match l with
  | [] => None
  | x :: rest => if p x then Some x else Array_find p rest
  end.

(** [Array.prototype.slice(start, end)] with integer arguments: a negative
    argument counts from the end, both are clamped to the array, and an
    empty range gives the empty array. *)
Definition relativeIndex (len i : Z) : Z :=
  if i <? 0 then Z.max (len + i) 0 else Z.min i len.

Definition Array_slice {A} (l : list A) (start end_ : Z) : list A :=
  let len := Z.of_nat (length l) in
  let k := relativeIndex len start in
  let final := relativeIndex len end_ in
  take (Z.to_nat (Z.max (final - k) 0)) (drop (Z.to_nat k) l).

(** [Math.ceil] of a quotient of two integers. *)
Definition Math_ceil (x : Q) : Z := Qceiling x.

(** A [Set] of strings: [add] appends a value that is not yet a member, so
    the list is duplicate-free and in insertion order. *)
Definition Set_add (s : list string) (x : string) : list string :=
  if Array_includes s x then s else s ++ [x].

(** [Array.prototype.sort(comparefn)]. The language fixes the result only
    for a consistent comparator, and then it is the stable arrangement: the
    elements in comparator order, ties in their original order. The model
    is the stable insertion sort. A comparator result of [NaN] counts
    as [+0]. *)
Definition SortCompare {A} (comparefn : A → A → option Z) (x y : A) : Z :=
  default 0 (comparefn x y).

Fixpoint sort_insert {A} (comparefn : A → A → option Z) (x : A) (l : list A)
    : list A :=
  match l with
  | [] => [x]
  | y :: rest =>
      if 0 <? SortCompare comparefn x y
      then y :: sort_insert comparefn x rest
      else x :: y :: rest
  end.

Definition Array_sort {A} (comparefn : A → A → option Z) (l : list A) : list A :=
  foldr (sort_insert comparefn) [] l.

(** The comparator of [sort()] without argument: strings by code units. *)
Definition defaultCompare (x y : string) : option Z :=
  Some match String.compare x y with
       | Lt => -1
       | Eq => 0
       | Gt => 1
       end.

(** [parseInt(string)] without radix: leading white space is skipped, a sign
    is read, a [0x] prefix selects base 16, and the longest run of digits of
    the base is the value; no digit at all gives [NaN]. The value is exact
    here, as it is in the program up to 2^53 in magnitude. *)
Definition isWhiteSpace (c : ascii) : bool :=
  let n := N_of_ascii c in
  (((9 <=? n) && (n <=? 13)) || (n =? 32))%N.

Fixpoint trimStart (s : string) : string :=
  match s with
  | EmptyString => EmptyString
  | String c rest => if isWhiteSpace c then trimStart rest else s
  end.

Definition digitValue (c : ascii) : option Z :=
  let n := Z.of_N (N_of_ascii c) in
  if (48 <=? n) && (n <=? 57) then Some (n - 48)
  else if (97 <=? n) && (n <=? 122) then Some (n - 87)
  else if (65 <=? n) && (n <=? 90) then Some (n - 55)
  else None.

Fixpoint parseDigits (radix : Z) (s : string) (acc : option Z) : option Z :=
  match s with
  | EmptyString => acc
  | String c rest =>
      match digitValue c with
      | Some d =>
          if d <? radix
          then parseDigits radix rest (Some (radix * default 0 acc + d))
          else acc
      | None => acc
      end
  end.

Definition parseInt (s : string) : option Z :=
  let s := trimStart s in
  let sign := if String.prefix "-" s then -1 else 1 in
  let s :=
    if String.prefix "+" s || String.prefix "-" s
    then String.substring 1 (String.length s - 1) s else s in
  let stripPrefix := String.prefix "0x" s || String.prefix "0X" s in
  let radix := if stripPrefix then 16 else 10 in
  let s :=
    if stripPrefix then String.substring 2 (String.length s - 2) s else s in
  match parseDigits radix s None with
  | Some n => Some (sign * n)
  | None => None
  end.

(** [decodeURIComponent] on the range of the model: text without escapes
    is returned as it is, an escape [%XY] below 0x80 gives its unit, and
    an escape that is cut short, is not hexadecimal, or lies outside the
    range is reported the way the runtime reports a malformed one, by
    throwing a [URIError]. *)
Definition URIError : Thrown := Error "URI malformed".

Fixpoint decodeURIComponent_ascii (s : string) : Thrown + string :=
  match s with
  | EmptyString => inr EmptyString
  | String c rest =>
      if Ascii.eqb c "%" then
        match rest with
        | String h (String l rest') =>
            match digitValue h, digitValue l with
            | Some a, Some b =>
                if (a <? 8) && (b <? 16) then
                  match decodeURIComponent_ascii rest' with
                  | inr decoded =>
                      inr (String (ascii_of_N (Z.to_N (16 * a + b))) decoded)
                  | inl err => inl err
                  end
                else inl URIError
            | _, _ => inl URIError
            end
        | _ => inl URIError
        end
      else
        match decodeURIComponent_ascii rest with
        | inr decoded => inr (String c decoded)
        | inl err => inl err
        end
  end.

(** Truthiness of a string, and [a || b] on strings that may be absent. *)
Definition truthy (s : string) : bool := negb (String.eqb s "").

Definition orElse (a : option string) (b : string) : string :=
  match a with
  | Some s => if truthy s then s else b
  | None => b
  end.

(** [URLSearchParams]: the list of name and value pairs, in order. *)
Module URLSearchParams.

Definition t : Type := list (string * string).

Definition new : t := [].

Fixpoint get (name : string) (params : t) : option string :=
  match params with
  | [] => None
  | (k, v) :: rest => if String.eqb k name then Some v else get name rest
  end.

(** [set] overwrites the first pair of that name and drops its other pairs,
    or appends a new pair. *)
Fixpoint overwrite (name value : string) (seen : bool) (params : t) : t :=
  match params with
  | [] => []
  | (k, v) :: rest =>
      if String.eqb k name
      then if seen then overwrite name value true rest
           else (k, value) :: overwrite name value true rest
      else (k, v) :: overwrite name value seen rest
  end.

Definition set (name value : string) (params : t) : t :=
  match get name params with
  | None => params ++ [(name, value)]
  | Some _ => overwrite name value false params
  end.

End URLSearchParams.

End JS.

(** ** The catalog document and its delivery *)

Record Movie := {
  title : string;
  year : string;
  rating : string;
  genres : list string;
  url : string;
  image_url : string;
  video_source : string;
  description : string
}.

Record MoviesData := {
  total_movies : Z;
  movies : list Movie
}.

(** [err instanceof Error ? err.message : "Unknown error"], the message
    both routes store in their [catch] clause. *)
Definition messageOf (err : Thrown) : string :=
  match err with
  | Error message => message
  | NotAnError => "Unknown error"
  end.

#[global] Instance Movie_eq_dec : EqDecision Movie.
Proof. solve_decision. Defined.

#[global] Instance MoviesData_eq_dec : EqDecision MoviesData.
Proof. solve_decision. Defined.

(** How [fetch("/data/movies.json")] followed by [response.json()] ends:
    the request is rejected, or a response arrives with its [ok] flag and a
    body that parses or fails to. *)
Inductive FetchOutcome :=
  | Rejected (err : Thrown)
  | Responded (ok : bool) (json : Thrown + MoviesData).

(** The part of both [try] blocks up to [const data = await response.json()]. *)
Definition fetchMovies (outcome : FetchOutcome) : Thrown + MoviesData :=
  match outcome with
  | Rejected err => inl err
  | Responded false _ => inl (Error "Failed to load movies")
  | Responded true json => json
  end.

(** ** The home route *)

Module FilterOptions.

Record t := {
  genres : list string;
  years : list string;
  ratings : list string
}.

End FilterOptions.

Module Home.

Definition MOVIES_PER_PAGE : Z := 20.

(** *** [filterOptions] *)

Record Sets := {
  allGenres : list string;
  allYears : list string;
  allRatings : list string
}.

(** The body of [moviesData.movies.forEach]. *)
Definition collect (acc : Sets) (movie : Movie) : Sets :=
  {| allGenres := fold_left JS.Set_add (genres movie) (allGenres acc);
     allYears := JS.Set_add (allYears acc) (year movie);
     allRatings := JS.Set_add (allRatings acc) (rating movie) |}.

(** [(a, b) => parseInt(b) - parseInt(a)]. *)
Definition byYearDescending (a b : string) : option Z :=
  match JS.parseInt b, JS.parseInt a with
  | Some nb, Some na => Some (nb - na)
  | _, _ => None
  end.

Definition filterOptions (moviesData : option MoviesData) : FilterOptions.t :=
  match moviesData with
  | None =>
      {| FilterOptions.genres := []; FilterOptions.years := [];
         FilterOptions.ratings := [] |}
  | Some data =>
      let sets :=
        fold_left collect (movies data)
          {| allGenres := []; allYears := []; allRatings := [] |} in
      {| FilterOptions.genres := JS.Array_sort JS.defaultCompare (allGenres sets);
         FilterOptions.years := JS.Array_sort byYearDescending (allYears sets);
         FilterOptions.ratings := JS.Array_sort JS.defaultCompare (allRatings sets) |}
  end.

(** *** [filteredMovies] *)

Definition matchesSearch `{runtime : !JS.Runtime} (searchTerm : string) (movie : Movie)
    : bool :=
  String.eqb searchTerm "" ||
  JS.String_includes (JS.toLowerCase (title movie)) (JS.toLowerCase searchTerm).

Definition matchesGenre (selectedGenre : string) (movie : Movie) : bool :=
  String.eqb selectedGenre "" || JS.Array_includes (genres movie) selectedGenre.

Definition matchesYear (selectedYear : string) (movie : Movie) : bool :=
  String.eqb selectedYear "" || String.eqb (year movie) selectedYear.

Definition matchesRating (selectedRating : string) (movie : Movie) : bool :=
  String.eqb selectedRating "" || String.eqb (rating movie) selectedRating.

(** The callback of [moviesData.movies.filter]. *)
Definition keeps `{runtime : !JS.Runtime}
    (searchTerm selectedGenre selectedYear selectedRating : string)
    (movie : Movie) : bool :=
  matchesSearch searchTerm movie && matchesGenre selectedGenre movie &&
  matchesYear selectedYear movie && matchesRating selectedRating movie.

Definition filteredMovies `{runtime : !JS.Runtime} (moviesData : option MoviesData)
    (searchTerm selectedGenre selectedYear selectedRating : string) : list Movie :=
  match moviesData with
  | None => []
  | Some data =>
      List.filter (keeps searchTerm selectedGenre selectedYear selectedRating)
        (movies data)
  end.

(** *** Pages

    The four lines after the early returns of [Home], with the page size as
    an argument; the component uses them at [MOVIES_PER_PAGE]. *)

Definition pageCount (perPage : Z) (filtered : list Movie) : Z :=
  JS.Math_ceil (inject_Z (Z.of_nat (length filtered)) / inject_Z perPage).

Definition pageStart (perPage currentPage : Z) : Z :=
  (currentPage - 1) * perPage.

Definition pageEnd (perPage currentPage : Z) : Z :=
  pageStart perPage currentPage + perPage.

Definition pageSlice (perPage : Z) (filtered : list Movie) (currentPage : Z)
    : list Movie :=
  JS.Array_slice filtered (pageStart perPage currentPage)
    (pageEnd perPage currentPage).

Definition totalPages (filtered : list Movie) : Z :=
  pageCount MOVIES_PER_PAGE filtered.

Definition startIndex (currentPage : Z) : Z :=
  pageStart MOVIES_PER_PAGE currentPage.

Definition endIndex (currentPage : Z) : Z :=
  pageEnd MOVIES_PER_PAGE currentPage.

Definition currentMovies (filtered : list Movie) (currentPage : Z) : list Movie :=
  pageSlice MOVIES_PER_PAGE filtered currentPage.

(** *** State, handlers and effects

    The component state: the [useState] cells, and the query string that
    [useSearchParams] reads from the router. The query string changes here
    only through [setSearchParams]; a change of location that comes from
    outside the component is not part of the model. *)

Record State := {
  moviesData : option MoviesData;
  currentPage : Z;
  loading : bool;
  error : option string;
  searchParams : JS.URLSearchParams.t;
  searchTerm : string;
  selectedGenre : string;
  selectedYear : string;
  selectedRating : string
}.

#[global] Instance State_eq_dec : EqDecision State.
Proof. solve_decision. Defined.

Definition setMoviesData (v : option MoviesData) (st : State) : State :=
  {| moviesData := v; currentPage := currentPage st; loading := loading st;
     error := error st; searchParams := searchParams st;
     searchTerm := searchTerm st; selectedGenre := selectedGenre st;
     selectedYear := selectedYear st; selectedRating := selectedRating st |}.

Definition setCurrentPage (v : Z) (st : State) : State :=
  {| moviesData := moviesData st; currentPage := v; loading := loading st;
     error := error st; searchParams := searchParams st;
     searchTerm := searchTerm st; selectedGenre := selectedGenre st;
     selectedYear := selectedYear st; selectedRating := selectedRating st |}.

Definition setLoading (v : bool) (st : State) : State :=
  {| moviesData := moviesData st; currentPage := currentPage st; loading := v;
     error := error st; searchParams := searchParams st;
     searchTerm := searchTerm st; selectedGenre := selectedGenre st;
     selectedYear := selectedYear st; selectedRating := selectedRating st |}.

Definition setError (v : option string) (st : State) : State :=
  {| moviesData := moviesData st; currentPage := currentPage st;
     loading := loading st; error := v; searchParams := searchParams st;
     searchTerm := searchTerm st; selectedGenre := selectedGenre st;
     selectedYear := selectedYear st; selectedRating := selectedRating st |}.

Definition setSearchParams (v : JS.URLSearchParams.t) (st : State) : State :=
  {| moviesData := moviesData st; currentPage := currentPage st;
     loading := loading st; error := error st; searchParams := v;
     searchTerm := searchTerm st; selectedGenre := selectedGenre st;
     selectedYear := selectedYear st; selectedRating := selectedRating st |}.

Definition setSearchTerm (v : string) (st : State) : State :=
  {| moviesData := moviesData st; currentPage := currentPage st;
     loading := loading st; error := error st; searchParams := searchParams st;
     searchTerm := v; selectedGenre := selectedGenre st;
     selectedYear := selectedYear st; selectedRating := selectedRating st |}.

Definition setSelectedGenre (v : string) (st : State) : State :=
  {| moviesData := moviesData st; currentPage := currentPage st;
     loading := loading st; error := error st; searchParams := searchParams st;
     searchTerm := searchTerm st; selectedGenre := v;
     selectedYear := selectedYear st; selectedRating := selectedRating st |}.

Definition setSelectedYear (v : string) (st : State) : State :=
  {| moviesData := moviesData st; currentPage := currentPage st;
     loading := loading st; error := error st; searchParams := searchParams st;
     searchTerm := searchTerm st; selectedGenre := selectedGenre st;
     selectedYear := v; selectedRating := selectedRating st |}.

Definition setSelectedRating (v : string) (st : State) : State :=
  {| moviesData := moviesData st; currentPage := currentPage st;
     loading := loading st; error := error st; searchParams := searchParams st;
     searchTerm := searchTerm st; selectedGenre := selectedGenre st;
     selectedYear := selectedYear st; selectedRating := v |}.

(** The four filter fields: the dependency list of the effects that follow
    the filters. *)
Definition criteria (st : State) : string * string * string * string :=
  (searchTerm st, selectedGenre st, selectedYear st, selectedRating st).

(** The first render: the filter fields are read from the query string. *)
Definition initialState (params : JS.URLSearchParams.t) : State :=
  {| moviesData := None; currentPage := 1; loading := true; error := None;
     searchParams := params;
     searchTerm := JS.orElse (JS.URLSearchParams.get "search" params) "";
     selectedGenre := JS.orElse (JS.URLSearchParams.get "genre" params) "";
     selectedYear := JS.orElse (JS.URLSearchParams.get "year" params) "";
     selectedRating := JS.orElse (JS.URLSearchParams.get "rating" params) "" |}.

(** Each effect reads the values of the render it belongs to ([seen]) and
    queues updates on the state. *)

(** "Update URL when filters change". *)
Definition updateUrl (seen : State) : State → State :=
  let params := JS.URLSearchParams.new in
  let params :=
    if JS.truthy (searchTerm seen)
    then JS.URLSearchParams.set "search" (searchTerm seen) params else params in
  let params :=
    if JS.truthy (selectedGenre seen)
    then JS.URLSearchParams.set "genre" (selectedGenre seen) params else params in
  let params :=
    if JS.truthy (selectedYear seen)
    then JS.URLSearchParams.set "year" (selectedYear seen) params else params in
  let params :=
    if JS.truthy (selectedRating seen)
    then JS.URLSearchParams.set "rating" (selectedRating seen) params else params in
  setSearchParams params.

(** "Update filters from URL when it changes". *)
Definition readUrl (seen : State) (st : State) : State :=
  let st :=
    setSearchTerm
      (JS.orElse (JS.URLSearchParams.get "search" (searchParams seen)) "") st in
  let st :=
    setSelectedGenre
      (JS.orElse (JS.URLSearchParams.get "genre" (searchParams seen)) "") st in
  let st :=
    setSelectedYear
      (JS.orElse (JS.URLSearchParams.get "year" (searchParams seen)) "") st in
  setSelectedRating
    (JS.orElse (JS.URLSearchParams.get "rating" (searchParams seen)) "") st.

(** "Reset to first page when filters change". *)
Definition resetPage : State → State := setCurrentPage 1.

(** [loadMovies], from the moment the request has ended. *)
Definition loadMovies (outcome : FetchOutcome) (st : State) : State :=
  let st :=
    match fetchMovies outcome with
    | inr data => setMoviesData (Some data) st
    | inl err => setError (Some (messageOf err)) st
    end in
  setLoading false st.

(** One round of effects after a render: an effect runs when a value of its
    dependency list differs from the render before. The router hands out a
    new [searchParams], and with it a new [setSearchParams], when the query
    string has changed; [updateUrl] lists the setter, so it follows both
    the filter fields and the query string. *)
Definition runEffects (prev seen : State) : State :=
  let criteriaChanged := bool_decide (criteria prev ≠ criteria seen) in
  let searchParamsChanged :=
    bool_decide (searchParams prev ≠ searchParams seen) in
  let st := seen in
  let st :=
    if criteriaChanged || searchParamsChanged then updateUrl seen st else st in
  let st := if searchParamsChanged then readUrl seen st else st in
  if criteriaChanged then resetPage st else st.

(** After mounting every effect runs once. *)
Definition mountEffects (seen : State) : State :=
  resetPage (setLoading true (readUrl seen (updateUrl seen seen))).

(** Rounds of effects until a round leaves the state as it is. *)
Fixpoint settle (rounds : nat) (prev seen : State) : State :=
  match rounds with
  | O => seen
  | S rounds =>
      let next := runEffects prev seen in
      if decide (next = seen) then seen else settle rounds seen next
  end.

Definition clearFilters (st : State) : State :=
  setCurrentPage 1
    (setSelectedRating "" (setSelectedYear "" (setSelectedGenre ""
      (setSearchTerm "" st)))).

Definition handlePageChange (page : Z) : State → State := setCurrentPage page.

(** What can happen to the mounted component. *)
Inductive Event :=
  | SearchInput (value : string)
  | GenreSelect (value : string)
  | YearSelect (value : string)
  | RatingSelect (value : string)
  | ClearFilters
  | PageClick (page : Z)
  | FetchSettled (outcome : FetchOutcome).

Definition handle (ev : Event) : State → State :=
  match ev with
  | SearchInput value => setSearchTerm value
  | GenreSelect value => setSelectedGenre value
  | YearSelect value => setSelectedYear value
  | RatingSelect value => setSelectedRating value
  | ClearFilters => clearFilters
  | PageClick page => handlePageChange page
  | FetchSettled outcome => loadMovies outcome
  end.

(** Two rounds are enough for every event (see [step_settled]). *)
Definition ROUNDS : nat := 2.

Definition mount (params : JS.URLSearchParams.t) : State :=
  let first := initialState params in
  settle ROUNDS first (mountEffects first).

(** A transition: the handler's updates, then the effects until they
    settle. *)
Definition step (st : State) (ev : Event) : State :=
  settle ROUNDS st (handle ev st).

(** *** What is rendered *)

Record Grid := {
  options : FilterOptions.t;
  matching : list Movie;
  pages : Z;
  shown : list Movie;
  noMoviesFound : bool;
  pager : bool
}.

Inductive View :=
  | LoadingView
  | ErrorView (message : string)
  | Blank
  | GridView (grid : Grid).

Definition render `{runtime : !JS.Runtime} (st : State) : View :=
  let filterOptions := filterOptions (moviesData st) in
  let filteredMovies :=
    filteredMovies (moviesData st) (searchTerm st) (selectedGenre st)
      (selectedYear st) (selectedRating st) in
  if loading st then LoadingView
  else if JS.truthy (JS.orElse (error st) "")
  then ErrorView (JS.orElse (error st) "")
  else match moviesData st with
  | None => Blank
  | Some _ =>
      GridView
        {| options := filterOptions;
           matching := filteredMovies;
           pages := totalPages filteredMovies;
           shown := currentMovies filteredMovies (currentPage st);
           noMoviesFound := bool_decide (length filteredMovies = 0%nat);
           pager := 1 <? totalPages filteredMovies |}
  end.

(** *** The pager and what the page offers *)

(** [searchTerm || selectedGenre || selectedYear || selectedRating], read as
    a condition. *)
Definition hasActiveFilters (st : State) : bool :=
  JS.truthy (searchTerm st) || JS.truthy (selectedGenre st) ||
  JS.truthy (selectedYear st) || JS.truthy (selectedRating st).

(** The number on button [i] of the pager. *)
Definition pageNum (totalPages currentPage i : Z) : Z :=
  if totalPages <=? 5 then i + 1
  else if currentPage <=? 3 then i + 1
  else if totalPages - 2 <=? currentPage then totalPages - 4 + i
  else currentPage - 2 + i.

(** [Array.from({ length: Math.min(5, totalPages) }, (_, i) => pageNum)]. *)
Definition pageNumbers (totalPages currentPage : Z) : list Z :=
  (λ i : nat, pageNum totalPages currentPage (Z.of_nat i)) <$>
    seq 0 (Z.to_nat (Z.min 5 totalPages)).

(** The pages a click on the pager asks for: Previous is disabled on page
    1 and Next on the last page. *)
Definition pagerClicks (totalPages currentPage : Z) : list Z :=
  (if currentPage =? 1 then [] else [currentPage - 1]) ++
  pageNumbers totalPages currentPage ++
  (if currentPage =? totalPages then [] else [currentPage + 1]).

(** "Showing [startIndex + 1]-[Math.min(endIndex, length)] of [length]". *)
Definition showingFrom (currentPage : Z) : Z := startIndex currentPage + 1.

Definition showingTo (filtered : list Movie) (currentPage : Z) : Z :=
  Z.min (endIndex currentPage) (Z.of_nat (length filtered)).

(** The events the page lets happen. The request ends while the spinner is
    shown. The search box, the three selects (each with the empty choice and
    the options) and, with a filter set, the clear button belong to the
    grid view; the pager is part of it when movies are found and there is
    more than one page. *)
Definition offers `{runtime : !JS.Runtime} (st : State) (ev : Event) : bool :=
  match ev with
  | FetchSettled _ => loading st
  | _ =>
      match render st with
      | GridView grid =>
          match ev with
          | SearchInput _ => true
          | GenreSelect value =>
              bool_decide (value ∈ "" :: FilterOptions.genres (options grid))
          | YearSelect value =>
              bool_decide (value ∈ "" :: FilterOptions.years (options grid))
          | RatingSelect value =>
              bool_decide (value ∈ "" :: FilterOptions.ratings (options grid))
          | ClearFilters => hasActiveFilters st
          | PageClick page =>
              negb (noMoviesFound grid) && pager grid &&
              bool_decide (page ∈ pagerClicks (pages grid) (currentPage st))
          | FetchSettled _ => false
          end
      | _ => false
      end
  end.

End Home.

(** ** The detail route *)

Module MovieDetail.

Record State := {
  movie : option Movie;
  loading : bool;
  error : option string
}.

Definition initialState : State :=
  {| movie := None; loading := true; error := None |}.

Definition setMovie (v : option Movie) (st : State) : State :=
  {| movie := v; loading := loading st; error := error st |}.

Definition setLoading (v : bool) (st : State) : State :=
  {| movie := movie st; loading := v; error := error st |}.

Definition setError (v : option string) (st : State) : State :=
  {| movie := movie st; loading := loading st; error := v |}.

Inductive View :=
  | LoadingView
  | MessageView (heading : string)
  | DetailView (movie : Movie).

(** [if (loading) ...; if (error || !movie) ...; return the details]. *)
Definition render (st : State) : View :=
  if loading st then LoadingView
  else match movie st with
  | None => MessageView (JS.orElse (error st) "Movie not found")
  | Some m =>
      if JS.truthy (JS.orElse (error st) "")
      then MessageView (JS.orElse (error st) "Movie not found")
      else DetailView m
  end.

Section Lookup.

(** [decodeURIComponent] belongs to the runtime: it returns the decoded
    string, or throws on a malformed escape. *)
Variable decodeURIComponent : string → Thrown + string.

Context `{runtime : !JS.Runtime}.

(** [data.movies.find((m) => m.title.toLowerCase() ===
    decodedTitle.toLowerCase())]. *)
Definition sameTitle (decodedTitle : string) (m : Movie) : bool :=
  String.eqb (JS.toLowerCase (title m)) (JS.toLowerCase decodedTitle).

Definition findMovie (decodedTitle : string) (data : MoviesData) : option Movie :=
  JS.Array_find (sameTitle decodedTitle) (movies data).

(** The [try] block after [setLoading(true)]: the updates it ends with, or
    what it throws. *)
Definition tryLookup (titleParam : option string) (outcome : FetchOutcome)
    : Thrown + (State → State) :=
  match fetchMovies outcome with
  | inl err => inl err
  | inr data =>
      match decodeURIComponent (JS.orElse titleParam "") with
      | inl err => inl err
      | inr decodedTitle =>
          match findMovie decodedTitle data with
          | Some foundMovie => inr (setMovie (Some foundMovie))
          | None => inr (setError (Some "Movie not found"))
          end
      end
  end.

Definition loadMovie (titleParam : option string) (outcome : FetchOutcome)
    (st : State) : State :=
  let st := setLoading true st in
  let st :=
    match tryLookup titleParam outcome with
    | inr updates => updates st
    | inl err => setError (Some (messageOf err)) st
    end in
  setLoading false st.

(** The effect on [title]: [if (title) { loadMovie(); }]. *)
Definition onTitle (titleParam : option string) (outcome : FetchOutcome)
    (st : State) : State :=
  if JS.truthy (JS.orElse titleParam "")
  then loadMovie titleParam outcome st
  else st.

(** The page once the request for [titleParam] has ended. *)
Definition page (titleParam : option string) (outcome : FetchOutcome) : View :=
  render (onTitle titleParam outcome initialState).

End Lookup.

End MovieDetail.

(** ** The production server: cache headers *)

Module Server.

(** The response headers; [setHeader] files a header under its name in
    small letters and replaces the value it had. A header name is a token
    of units below 128. *)
Definition setHeader (name value : string) (headers : gmap string string)
    : gmap string string :=
  <[JS.toLowerCase_ascii name := value]> headers.

(** [url.match(/\.(css|js|png|jpg|jpeg|gif|svg|woff|woff2|ttf|eot|ico)$/)]. *)
Definition ASSET_EXTENSIONS : list string :=
  ["css"; "js"; "png"; "jpg"; "jpeg"; "gif"; "svg"; "woff"; "woff2"; "ttf";
   "eot"; "ico"].

Definition isAsset (url : string) : bool :=
  existsb (λ ext, JS.String_endsWith url ("." +:+ ext)) ASSET_EXTENSIONS.

(** [url.match(/\/data\//)]. *)
Definition isData (url : string) : bool := JS.String_includes url "/data/".

Definition isHtml (url : string) : bool :=
  JS.String_endsWith url ".html" || String.eqb url "/".

Definition ASSET_POLICY : string := "public, max-age=31536000, immutable".
Definition DATA_POLICY : string := "public, max-age=86400, must-revalidate".
Definition HTML_POLICY : string := "public, max-age=300, must-revalidate".

(** The middleware "Add custom headers for all responses", up to its call
    of [next]. *)
Definition cacheHeaders (url : string) (headers : gmap string string)
    : gmap string string :=
  let headers :=
    if isAsset url then setHeader "Cache-Control" ASSET_POLICY headers
    else headers in
  let headers :=
    if isData url then setHeader "Cache-Control" DATA_POLICY headers
    else headers in
  if isHtml url then setHeader "Cache-Control" HTML_POLICY headers
  else headers.

End Server.


(** ** Vocabulary of the specification *)

(** [u] occurs in [s] as a contiguous run of units. *)
Definition substring_of (u s : string) : Prop :=
  ∃ before after, s = before +:+ u +:+ after.

(** Two units that are equal, or the capital and the small form of one
    letter. *)
Definition is_capital (c : ascii) : Prop :=
  (65 ≤ N_of_ascii c ≤ 90)%N.

Definition same_letter (a b : ascii) : Prop :=
  a = b ∨
  (is_capital a ∧ N_of_ascii b = (N_of_ascii a + 32)%N) ∨
  (is_capital b ∧ N_of_ascii a = (N_of_ascii b + 32)%N).

(** Two strings that are equal unit by unit up to the case of the letters
    A-Z. *)
Inductive same_letters : string → string → Prop :=
  | same_letters_empty : same_letters "" ""
  | same_letters_unit a b s t :
      same_letter a b → same_letters s t →
      same_letters (String a s) (String b t).

(** Text whose units are all below 128. *)
Fixpoint ascii_text (s : string) : Prop :=
  match s with
  | EmptyString => True
  | String c rest => (N_of_ascii c < 128)%N ∧ ascii_text rest
  end.

(** Equality of strings up to case, with case as the runtime has it: the
    two strings have the same lower-case form. *)
Definition eq_ignore_case `{runtime : !JS.Runtime} (s t : string) : Prop :=
  JS.toLowerCase s = JS.toLowerCase t.

(** [term] is a case-insensitive substring of [text]: the lower-case form
    of [term] occurs in the lower-case form of [text]. *)
Definition ci_substring `{runtime : !JS.Runtime} (term text : string) : Prop :=
  substring_of (JS.toLowerCase term) (JS.toLowerCase text).

(** Two facts about [toLowerCase] that the statements which read case
    letter by letter take as a premise, and say so. It lowers text below
    unit 128 unit by unit; and it reads a capital A-Z as its small letter,
    wherever in a string the capital stands. *)
Definition lowers_ascii_text `{runtime : !JS.Runtime} : Prop :=
  ∀ s, ascii_text s → JS.toLowerCase s = JS.toLowerCase_ascii s.

Definition reads_capitals_as_small `{runtime : !JS.Runtime} : Prop :=
  ∀ s, JS.toLowerCase (JS.toLowerCase_ascii s) = JS.toLowerCase s.

(** The four conditions of the filter on one record. *)
Definition passes `{runtime : !JS.Runtime}
    (searchTerm selectedGenre selectedYear selectedRating : string)
    (m : Movie) : Prop :=
  (searchTerm = "" ∨ ci_substring searchTerm (title m)) ∧
  (selectedGenre = "" ∨ selectedGenre ∈ genres m) ∧
  (selectedYear = "" ∨ selectedYear = year m) ∧
  (selectedRating = "" ∨ selectedRating = rating m).


(** Code-unit order on strings: a proper prefix comes first, otherwise the
    first differing unit decides. *)
Inductive lex_lt : string → string → Prop :=
  | lex_lt_prefix c t : lex_lt "" (String c t)
  | lex_lt_unit a b s t :
      (N_of_ascii a < N_of_ascii b)%N → lex_lt (String a s) (String b t)
  | lex_lt_rest a s t : lex_lt s t → lex_lt (String a s) (String a t).

(** Digit strings and the number they write in base ten. *)
Definition is_digit (c : ascii) : Prop :=
  (48 ≤ N_of_ascii c ≤ 57)%N.

Fixpoint all_digits (s : string) : Prop :=
  match s with
  | EmptyString => True
  | String c rest => is_digit c ∧ all_digits rest
  end.

Fixpoint decimal (acc : Z) (s : string) : Z :=
  match s with
  | EmptyString => acc
  | String c rest => decimal (10 * acc + (Z.of_N (N_of_ascii c) - 48)) rest
  end.

(** The year of the data model: four decimal digits. *)
Definition four_digit_year (y : string) : Prop :=
  String.length y = 4%nat ∧ all_digits y.

(** [y] reads as a number that the program holds exactly. *)
Definition reads_number (y : string) : Prop :=
  ∃ n, JS.parseInt y = Some n ∧ - 2 ^ 53 ≤ n ≤ 2 ^ 53.

(** [a] comes before [b] in descending numeric order, for the number that
    [parseInt] reads. *)
Definition parsed_ge (a b : string) : Prop :=
  ∃ na nb, JS.parseInt a = Some na ∧ JS.parseInt b = Some nb ∧ nb ≤ na.

(** [s] ends with [suffix]. *)
Definition ends_with (s suffix : string) : Prop :=
  ∃ before, s = before +:+ suffix.

(** The states of the home page: the one it mounts in, for a query string,
    and those that follow by an event the page offers. *)
Inductive reachable `{runtime : !JS.Runtime} (params : JS.URLSearchParams.t)
    : Home.State → Prop :=
  | reachable_mount : reachable params (Home.mount params)
  | reachable_step st ev :
      reachable params st → Home.offers st ev = true →
      reachable params (Home.step st ev).

(** The filter fields a query string stands for. *)
Definition criteriaOf (params : JS.URLSearchParams.t)
    : string * string * string * string :=
  (JS.orElse (JS.URLSearchParams.get "search" params) "",
   JS.orElse (JS.URLSearchParams.get "genre" params) "",
   JS.orElse (JS.URLSearchParams.get "year" params) "",
   JS.orElse (JS.URLSearchParams.get "rating" params) "").

(** The filtered list of a state. *)
Definition filteredOf `{runtime : !JS.Runtime} (st : Home.State) : list Movie :=
  Home.filteredMovies (Home.moviesData st) (Home.searchTerm st)
    (Home.selectedGenre st) (Home.selectedYear st) (Home.selectedRating st).

(** What holds of the page number and of the load in the states the page
    reaches (see [reachable_inv]). *)
Definition page_in_range `{runtime : !JS.Runtime} (st : Home.State) : Prop :=
  1 ≤ Home.currentPage st ∧
  (Home.currentPage st = 1 ∨
   (Home.loading st = false ∧
    Home.currentPage st ≤ Home.totalPages (filteredOf st))).

Definition load_settled (st : Home.State) : Prop :=
  if Home.loading st
  then Home.moviesData st = None ∧ Home.error st = None
  else (is_Some (Home.moviesData st) ∧ Home.error st = None) ∨
       (Home.moviesData st = None ∧ is_Some (Home.error st)).

(** The document [data] with its list of movies replaced. *)
Definition withMovies (data : MoviesData) (l : list Movie) : MoviesData :=
  {| total_movies := total_movies data; movies := l |}.

(** ** Sample documents *)

Definition sample (t y : string) : Movie :=
  {| title := t; year := y; rating := "PG-13"; genres := ["Drama"];
     url := ""; image_url := ""; video_source := ""; description := "" |}.

Definition catalog3 : MoviesData :=
  {| total_movies := 3;
     movies := [sample "A" "2000"; sample "B" "2001"; sample "C" "2000"] |}.

Definition catalog4 : MoviesData :=
  {| total_movies := 4;
     movies :=
       [ {| title := "Heat"; year := "1995"; rating := "R";
            genres := ["Crime"; "Drama"]; url := ""; image_url := "";
            video_source := ""; description := "" |};
         {| title := "Up"; year := "2009"; rating := "PG";
            genres := ["Animation"; "Adventure"]; url := ""; image_url := "";
            video_source := ""; description := "" |};
         {| title := "Alien"; year := "1979"; rating := "R";
            genres := ["Horror"; "Sci-Fi"]; url := ""; image_url := "";
            video_source := ""; description := "" |};
         {| title := "Coraline"; year := "2009"; rating := "PG";
            genres := ["Animation"; "Drama"]; url := ""; image_url := "";
            video_source := ""; description := "" |} ] |}.

(** Forty-five records, titled by their index. *)
Definition movies45 : list Movie :=
  (λ i : nat, sample (pretty i) "2000") <$> seq 0 45.

Definition alien1979 : Movie :=
  {| title := "Alien"; year := "1979"; rating := "R";
     genres := ["Horror"; "Sci-Fi"]; url := ""; image_url := "";
     video_source := ""; description := "The crew of the Nostromo." |}.

Definition alien2019 : Movie :=
  {| title := "ALIEN"; year := "2019"; rating := "PG-13";
     genres := ["Drama"]; url := ""; image_url := "";
     video_source := ""; description := "A stage play." |}.

Definition heat1995 : Movie :=
  {| title := "Heat"; year := "1995"; rating := "R";
     genres := ["Crime"; "Drama"]; url := ""; image_url := "";
     video_source := ""; description := "" |}.

(** The home page after the document [catalog3] has arrived and page 3 was
    clicked. *)
Definition browsing : Home.State :=
  Home.step
    (Home.step (Home.mount []) (Home.FetchSettled (Responded true (inr catalog3))))
    (Home.PageClick 3).

(** The home page opened without a query string, after a document of the
    45 records has arrived and page 2 was clicked. *)
Definition paging : Home.State :=
  Home.step
    (Home.step (Home.mount [])
       (Home.FetchSettled
          (Responded true (inr {| total_movies := 45; movies := movies45 |}))))
    (Home.PageClick 2).

(** The option sets on screen, when the grid is shown. *)
Definition optionsShown `{runtime : !JS.Runtime} (st : Home.State)
    : option FilterOptions.t :=
  match Home.render st with
  | Home.GridView grid => Some (Home.options grid)
  | _ => None
  end.

(** The query string that [updateUrl] writes for the filter fields of a
    state. *)
Definition urlOf (st : Home.State) : JS.URLSearchParams.t :=
  Home.searchParams (Home.updateUrl st st).

Definition sets_NoDup (acc : Home.Sets) : Prop :=
  NoDup (Home.allGenres acc) ∧ NoDup (Home.allYears acc) ∧
  NoDup (Home.allRatings acc).

(** * Properties *)

(** ** Strings *)

Lemma append_empty_l (s : string) : "" +:+ s = s.
Proof. reflexivity. Qed.

Lemma append_unit (c : ascii) (s t : string) :
  String c s +:+ t = String c (s +:+ t).
Proof. reflexivity. Qed.

Ltac unfold_append :=
  repeat (progress (simpl in *; rewrite ?append_unit, ?append_empty_l in * )).

Section Strings.

Implicit Types (a b c : ascii) (s t u : string).

Lemma prefix_true u s : String.prefix u s = true ↔ ∃ after, s = u +:+ after.
Proof.
  revert s. induction u as [|a u IH]; intros s.
  - destruct s; simpl; split; eauto.
  - destruct s as [|b s]; simpl.
    + split; [discriminate | intros [? ?]; unfold_append; discriminate].
    + destruct (Ascii.ascii_dec a b) as [->|Hne].
      * rewrite IH. split; intros [after H]; exists after; unfold_append; congruence.
      * split; [discriminate | intros [? ?]; unfold_append; congruence].
Qed.

Lemma String_includes_true s u :
  JS.String_includes s u = true ↔ substring_of u s.
Proof.
  unfold substring_of. induction s as [|c s IH].
  - change (JS.String_includes "" u) with (String.prefix u "" || false).
    rewrite orb_false_r, prefix_true. split.
    + intros [after H]. exists "", after. done.
    + intros (before & after & H). destruct before; [|discriminate].
      exists after. done.
  - change (JS.String_includes (String c s) u)
      with (String.prefix u (String c s) || JS.String_includes s u).
    rewrite orb_true_iff, prefix_true, IH. split.
    + intros [[after H] | (before & after & H)].
      * exists "", after. done.
      * exists (String c before), after. unfold_append. congruence.
    + intros (before & after & H). destruct before as [|c' before].
      * left. exists after. done.
      * right. exists before, after. unfold_append. congruence.
Qed.

Lemma code_inj a b : N_of_ascii a = N_of_ascii b → a = b.
Proof.
  intros H. rewrite <- (ascii_N_embedding a), <- (ascii_N_embedding b).
  congruence.
Qed.

Lemma toLowerCaseChar_code c :
  N_of_ascii (JS.toLowerCaseChar_ascii c) =
  (if ((65 <=? N_of_ascii c) && (N_of_ascii c <=? 90))%N
   then N_of_ascii c + 32 else N_of_ascii c)%N.
Proof.
  unfold JS.toLowerCaseChar_ascii.
  destruct ((65 <=? N_of_ascii c) && (N_of_ascii c <=? 90))%N eqn:E; [|done].
  apply N_ascii_embedding.
  apply andb_true_iff in E as [_ E%N.leb_le]. lia.
Qed.

Lemma toLowerCaseChar_same a b :
  JS.toLowerCaseChar_ascii a = JS.toLowerCaseChar_ascii b ↔ same_letter a b.
Proof.
  unfold same_letter, is_capital. split.
  - intros H%(f_equal N_of_ascii). rewrite !toLowerCaseChar_code in H.
    destruct ((65 <=? N_of_ascii a) && (N_of_ascii a <=? 90))%N eqn:Ea;
      destruct ((65 <=? N_of_ascii b) && (N_of_ascii b <=? 90))%N eqn:Eb;
      try (apply andb_true_iff in Ea as [?%N.leb_le ?%N.leb_le]);
      try (apply andb_true_iff in Eb as [?%N.leb_le ?%N.leb_le]).
    + left. apply code_inj. lia.
    + right. left. lia.
    + right. right. lia.
    + left. by apply code_inj.
  - intros H. apply code_inj. rewrite !toLowerCaseChar_code.
    destruct H as [->|[[Ha Hb]|[Hb Ha]]]; [done| |].
    + rewrite Hb.
      replace ((65 <=? N_of_ascii a) && (N_of_ascii a <=? 90))%N with true
        by (symmetry; apply andb_true_iff; split; apply N.leb_le; lia).
      replace ((65 <=? N_of_ascii a + 32) && (N_of_ascii a + 32 <=? 90))%N
        with false; [done|].
      symmetry. apply andb_false_iff. right. apply N.leb_gt. lia.
    + rewrite Ha.
      replace ((65 <=? N_of_ascii b) && (N_of_ascii b <=? 90))%N with true
        by (symmetry; apply andb_true_iff; split; apply N.leb_le; lia).
      replace ((65 <=? N_of_ascii b + 32) && (N_of_ascii b + 32 <=? 90))%N
        with false; [done|].
      symmetry. apply andb_false_iff. right. apply N.leb_gt. lia.
Qed.

Lemma toLowerCase_same s t :
  JS.toLowerCase_ascii s = JS.toLowerCase_ascii t ↔ same_letters s t.
Proof.
  split.
  - revert t. induction s as [|a s IH]; intros [|b t] H; simpl in H;
      try discriminate.
    + constructor.
    + injection H as Hc Hr. constructor; [by apply toLowerCaseChar_same | auto].
  - induction 1 as [|a b s t Hab _ IH]; simpl; [done|].
    apply toLowerCaseChar_same in Hab. congruence.
Qed.

Lemma toLowerCase_append s t :
  JS.toLowerCase_ascii (s +:+ t) = JS.toLowerCase_ascii s +:+ JS.toLowerCase_ascii t.
Proof. induction s as [|c s IH]; unfold_append; simpl; congruence. Qed.

(** A split of the lowered string comes from a split of the string. *)
Lemma toLowerCase_split s x y :
  JS.toLowerCase_ascii s = x +:+ y →
  ∃ s1 s2, s = s1 +:+ s2 ∧ JS.toLowerCase_ascii s1 = x ∧ JS.toLowerCase_ascii s2 = y.
Proof.
  revert s. induction x as [|c x IH]; intros s H; unfold_append.
  - exists "", s. done.
  - destruct s as [|a s]; simpl in H; [discriminate|].
    injection H as Hc Hr. destruct (IH _ Hr) as (s1 & s2 & -> & H1 & H2).
    exists (String a s1), s2. unfold_append. simpl. repeat split; congruence.
Qed.

(** In the lowered text the lowered term occurs exactly when some run of
    the text equals the term up to the case of A-Z. *)
Lemma includes_lowered text term :
  substring_of (JS.toLowerCase_ascii term) (JS.toLowerCase_ascii text) ↔
  ∃ run, substring_of run text ∧ same_letters run term.
Proof.
  unfold substring_of. split.
  - intros (x & y & H).
    apply toLowerCase_split in H as (s1 & rest & -> & <- & H).
    apply toLowerCase_split in H as (run & s3 & -> & Hrun & <-).
    exists run. split; [by exists s1, s3 | by apply toLowerCase_same].
  - intros (run & (s1 & s3 & ->) & Hrun%toLowerCase_same).
    exists (JS.toLowerCase_ascii s1), (JS.toLowerCase_ascii s3).
    rewrite !toLowerCase_append. congruence.
Qed.

Lemma toLowerCaseChar_idem c :
  JS.toLowerCaseChar_ascii (JS.toLowerCaseChar_ascii c) =
  JS.toLowerCaseChar_ascii c.
Proof.
  apply code_inj. rewrite !toLowerCaseChar_code.
  destruct ((65 <=? N_of_ascii c) && (N_of_ascii c <=? 90))%N eqn:E;
    [|by rewrite E].
  apply andb_true_iff in E as [?%N.leb_le ?%N.leb_le].
  replace ((65 <=? N_of_ascii c + 32) && (N_of_ascii c + 32 <=? 90))%N
    with false; [done|].
  symmetry. apply andb_false_iff. right. apply N.leb_gt. lia.
Qed.

Lemma toLowerCase_idem s :
  JS.toLowerCase_ascii (JS.toLowerCase_ascii s) = JS.toLowerCase_ascii s.
Proof.
  induction s as [|c s IH]; simpl; [done|].
  by rewrite toLowerCaseChar_idem, IH.
Qed.

(** *** Case as the runtime has it *)

Context `{runtime : !JS.Runtime}.

Lemma eq_ignore_case_ascii s t :
  lowers_ascii_text → ascii_text s → ascii_text t →
  eq_ignore_case s t ↔ same_letters s t.
Proof.
  intros Hlow Hs Ht. unfold eq_ignore_case.
  by rewrite (Hlow s Hs), (Hlow t Ht), toLowerCase_same.
Qed.

Lemma ci_substring_ascii term text :
  lowers_ascii_text → ascii_text term → ascii_text text →
  ci_substring term text ↔ ∃ run, substring_of run text ∧ same_letters run term.
Proof.
  intros Hlow Hterm Htext. unfold ci_substring.
  by rewrite (Hlow term Hterm), (Hlow text Htext), includes_lowered.
Qed.

Lemma same_letters_eq_ignore_case s t :
  reads_capitals_as_small → same_letters s t → eq_ignore_case s t.
Proof.
  intros Hcap Hst%toLowerCase_same. unfold eq_ignore_case.
  by rewrite <- (Hcap s), <- (Hcap t), Hst.
Qed.

End Strings.

(** ** The filter *)

Section Filter.

Context `{runtime : !JS.Runtime}.

Variables searchTerm selectedGenre selectedYear selectedRating : string.

Lemma Array_includes_true l x : JS.Array_includes l x = true ↔ x ∈ l.
Proof.
  unfold JS.Array_includes. rewrite existsb_exists. split.
  - intros (y & Hy & ->%String.eqb_eq). by apply list_elem_of_In.
  - intros Hx. exists x. split; [by apply list_elem_of_In | apply String.eqb_refl].
Qed.

Lemma keeps_passes m :
  Home.keeps searchTerm selectedGenre selectedYear selectedRating m = true ↔
  passes searchTerm selectedGenre selectedYear selectedRating m.
Proof.
  unfold Home.keeps, passes, ci_substring, Home.matchesSearch,
    Home.matchesGenre, Home.matchesYear, Home.matchesRating.
  rewrite !andb_true_iff, !orb_true_iff, !String.eqb_eq, String_includes_true,
    Array_includes_true.
  intuition congruence.
Qed.

Lemma filter_sublist {A} (f : A → bool) (l : list A) :
  List.filter f l `sublist_of` l.
Proof.
  induction l as [|x l IH]; simpl; [constructor|].
  destruct (f x); by constructor.
Qed.

Lemma filter_all {A} (f : A → bool) (l : list A) :
  (∀ x, f x = true) → List.filter f l = l.
Proof.
  intros Hall. induction l as [|x l IH]; simpl; [done|].
  rewrite Hall. congruence.
Qed.

Lemma sublist_count_occ (l1 l2 : list Movie) m :
  l1 `sublist_of` l2 → (count_occ Movie_eq_dec l1 m ≤ count_occ Movie_eq_dec l2 m)%nat.
Proof.
  induction 1 as [|x l1 l2 _ IH|x l1 l2 _ IH]; simpl; [lia| |];
    destruct (Movie_eq_dec x m); lia.
Qed.

(** C1: [filteredMovies] keeps exactly the records that meet all four
    conditions: a record is in the result if and only if it is in the
    catalog and the search term is empty or a case-insensitive substring of
    its title, the genre is empty or one of its genres, the year is empty
    or equal to its year, and the rating is empty or equal to its rating;
    and the result is the catalog filtered by that condition, whichever way
    the condition is decided. Case is the runtime's: the term is a
    case-insensitive substring when its lower-case form occurs in the
    lower-case form of the title. For a term and a title below unit 128,
    which [toLowerCase] lowers unit by unit, that is to say that some run
    of the title equals the term up to the case of the letters A-Z. *)
Theorem filteredMovies_keeps_exactly (data : MoviesData) :
  (∀ m,
    m ∈ Home.filteredMovies (Some data) searchTerm selectedGenre selectedYear
          selectedRating ↔
    m ∈ movies data ∧
    passes searchTerm selectedGenre selectedYear selectedRating m) ∧
  (∀ decide_passes :
       ∀ m, Decision (passes searchTerm selectedGenre selectedYear selectedRating m),
    Home.filteredMovies (Some data) searchTerm selectedGenre selectedYear
      selectedRating =
    @filter _ _ _ (passes searchTerm selectedGenre selectedYear selectedRating)
      decide_passes (movies data)) ∧
  (lowers_ascii_text → ascii_text searchTerm →
   ∀ m, ascii_text (title m) →
     ci_substring searchTerm (title m) ↔
     ∃ run, substring_of run (title m) ∧ same_letters run searchTerm).
Proof.
  unfold Home.filteredMovies. split_and!.
  - intros m. rewrite list_elem_of_In, filter_In, keeps_passes.
    by rewrite list_elem_of_In.
  - intros dec. induction (movies data) as [|m l IH]; [done|].
    rewrite filter_cons. simpl. rewrite IH.
    destruct (dec m) as [Hp|Hn].
    + by rewrite (proj2 (keeps_passes m) Hp).
    + destruct (Home.keeps _ _ _ _ m) eqn:E; [|done].
      by apply keeps_passes in E.
  - intros Hlow Hterm m Hm. by apply ci_substring_ascii.
Qed.

End Filter.

Section Example_conditions.

#[local] Existing Instance JS.ascii_runtime.

Lemma filteredMovies_keeps_exactly_witness :
  title <$> Home.filteredMovies (Some catalog4) "ALI" "" "2009" ""
    = ["Coraline"] ∧
  (∀ m, m ∈ Home.filteredMovies (Some catalog4) "ALI" "" "2009" "" ↔
        m ∈ movies catalog4 ∧ passes "ALI" "" "2009" "" m) ∧
  ci_substring "ALI" "Coraline".
Proof.
  destruct (filteredMovies_keeps_exactly "ALI" "" "2009" "" catalog4)
    as (Hiff & _ & Hascii).
  split; [reflexivity|]. split; [exact Hiff|].
  apply (Hascii (λ s _, eq_refl) ltac:(by vm_compute)
           (sample "Coraline" "2009") ltac:(by vm_compute)).
  exists "ali". split; [by exists "Cor", "ne" | by apply toLowerCase_same].
Defined.

End Example_conditions.

(** C5: the filtered list is a subsequence of the catalog in catalog order:
    every survivor is a catalog record, no record occurs more often than in
    the catalog, and a duplicate-free catalog gives a duplicate-free
    result. On records titled A, B, C of the years 2000, 2001, 2000 the
    year filter 2000 alone returns A and C, in that order. *)
Theorem filteredMovies_subsequence `{runtime : !JS.Runtime} (data : MoviesData)
    (searchTerm selectedGenre selectedYear selectedRating : string) :
  Home.filteredMovies (Some data) searchTerm selectedGenre selectedYear
    selectedRating `sublist_of` movies data ∧
  (∀ m,
    m ∈ Home.filteredMovies (Some data) searchTerm selectedGenre selectedYear
          selectedRating → m ∈ movies data) ∧
  (∀ m,
    count_occ Movie_eq_dec
      (Home.filteredMovies (Some data) searchTerm selectedGenre selectedYear
         selectedRating) m ≤ count_occ Movie_eq_dec (movies data) m)%nat ∧
  (NoDup (movies data) →
   NoDup (Home.filteredMovies (Some data) searchTerm selectedGenre selectedYear
            selectedRating)) ∧
  (∀ a b c n,
    title a = "A" → title b = "B" → title c = "C" →
    year a = "2000" → year b = "2001" → year c = "2000" →
    Home.filteredMovies (Some {| total_movies := n; movies := [a; b; c] |})
      "" "" "2000" "" = [a; c] ∧
    title <$> Home.filteredMovies
      (Some {| total_movies := n; movies := [a; b; c] |}) "" "" "2000" ""
      = ["A"; "C"]).
Proof.
  assert (Hsub := filter_sublist
    (Home.keeps searchTerm selectedGenre selectedYear selectedRating)
    (movies data)).
  unfold Home.filteredMovies. split_and!.
  - done.
  - intros m Hm. by eapply elem_of_sublist.
  - intros m. by apply sublist_count_occ.
  - intros Hnd. by eapply sublist_NoDup.
  - intros a b c n Ha Hb Hc Hya Hyb Hyc. simpl.
    unfold Home.keeps, Home.matchesSearch, Home.matchesGenre,
      Home.matchesYear, Home.matchesRating.
    rewrite Hya, Hyb, Hyc. simpl. by rewrite Ha, Hc.
Qed.

Section Example_subsequence.

#[local] Existing Instance JS.ascii_runtime.

Lemma filteredMovies_subsequence_witness :
  Home.filteredMovies (Some catalog3) "" "" "2000" ""
    `sublist_of` movies catalog3 ∧
  title <$> Home.filteredMovies (Some catalog3) "" "" "2000" "" = ["A"; "C"].
Proof.
  destruct (filteredMovies_subsequence catalog3 "" "" "2000" "")
    as (Hsub & _ & _ & _ & Hscenario).
  split; [exact Hsub|].
  by apply (Hscenario (sample "A" "2000") (sample "B" "2001")
              (sample "C" "2000") 3).
Defined.

End Example_subsequence.

(** C6: with all four criteria empty the filter returns the catalog as it
    is, element for element. *)
Theorem filteredMovies_no_criteria `{runtime : !JS.Runtime} (data : MoviesData) :
  Home.filteredMovies (Some data) "" "" "" "" = movies data.
Proof.
  unfold Home.filteredMovies. apply filter_all. intros m. reflexivity.
Qed.

(** ** Pages *)

Section Pages.

Implicit Types (filtered : list Movie) (perPage p : Z).

(** [Math.ceil(length / perPage)] in integer arithmetic. *)
Lemma pageCount_div perPage filtered :
  0 < perPage →
  Home.pageCount perPage filtered =
  - ((- Z.of_nat (length filtered)) `div` perPage).
Proof.
  intros Hpos. unfold Home.pageCount, JS.Math_ceil.
  destruct perPage as [|d|d]; try lia.
  unfold Qceiling, Qfloor, Qdiv, Qinv, Qmult, Qopp, inject_Z. simpl.
  by rewrite Z.mul_1_r.
Qed.

Lemma pageCount_bounds perPage filtered :
  0 < perPage →
  perPage * (Home.pageCount perPage filtered - 1) < Z.of_nat (length filtered)
    ≤ perPage * Home.pageCount perPage filtered.
Proof.
  intros Hpos. rewrite pageCount_div by done.
  pose proof (Z.div_mod (- Z.of_nat (length filtered)) perPage ltac:(lia)).
  pose proof (Z.mod_pos_bound (- Z.of_nat (length filtered)) perPage Hpos).
  nia.
Qed.

Lemma pageCount_closed perPage filtered :
  0 < perPage →
  Home.pageCount perPage filtered =
  (Z.of_nat (length filtered) + perPage - 1) `div` perPage.
Proof.
  intros Hpos. pose proof (pageCount_bounds perPage filtered Hpos) as [Hlo Hhi].
  apply Z.div_unique with
    (r := Z.of_nat (length filtered) + perPage - 1
          - perPage * Home.pageCount perPage filtered); lia.
Qed.

(** From page 1 on, [slice] takes [perPage] elements after the start. *)
Lemma pageSlice_take_drop perPage filtered p :
  0 < perPage → 1 ≤ p →
  Home.pageSlice perPage filtered p =
  take (Z.to_nat perPage) (drop (Z.to_nat ((p - 1) * perPage)) filtered).
Proof.
  intros Hpos Hp.
  unfold Home.pageSlice, JS.Array_slice, JS.relativeIndex, Home.pageEnd,
    Home.pageStart.
  assert (0 ≤ (p - 1) * perPage) as Hstart by nia.
  destruct ((p - 1) * perPage <? 0) eqn:E1; [apply Z.ltb_lt in E1; lia|].
  destruct ((p - 1) * perPage + perPage <? 0) eqn:E2;
    [apply Z.ltb_lt in E2; lia|].
  remember ((p - 1) * perPage) as start eqn:Estart. clear Estart.
  destruct (decide (Z.of_nat (length filtered) ≤ start)) as [Hout|Hin].
  - rewrite !drop_ge by lia. by rewrite !take_nil.
  - rewrite (Z.min_l start) by lia.
    destruct (decide (start + perPage ≤ Z.of_nat (length filtered)))
      as [Hfull|Hpart].
    + f_equal. lia.
    + rewrite !take_ge; [done|rewrite length_drop; lia..].
Qed.

Lemma pageSlice_lookup perPage filtered p (i : nat) :
  0 < perPage → 1 ≤ p →
  Home.pageSlice perPage filtered p !! i =
  if decide (Z.of_nat i < perPage)
  then filtered !! (Z.to_nat ((p - 1) * perPage) + i)%nat
  else None.
Proof.
  intros Hpos Hp. rewrite pageSlice_take_drop by done.
  case_decide.
  - rewrite lookup_take_lt by lia. apply lookup_drop.
  - apply lookup_take_ge. lia.
Qed.

Lemma pageSlice_length perPage filtered p :
  0 < perPage → 1 ≤ p →
  Z.of_nat (length (Home.pageSlice perPage filtered p)) =
  Z.max 0 (Z.min (p * perPage) (Z.of_nat (length filtered)) - (p - 1) * perPage).
Proof.
  intros Hpos Hp. rewrite pageSlice_take_drop by done.
  rewrite length_take, length_drop. nia.
Qed.

(** The first [n] pages, glued together, are the first [n * perPage]
    elements. *)
Lemma pages_concat perPage filtered (n : nat) :
  0 < perPage →
  concat (Home.pageSlice perPage filtered <$> (Z.of_nat <$> seq 1 n)) =
  take (n * Z.to_nat perPage) filtered.
Proof.
  intros Hpos. induction n as [|n IH]; [done|].
  rewrite seq_S, !fmap_app, concat_app, IH. simpl.
  rewrite app_nil_r, pageSlice_take_drop by lia.
  replace (Z.to_nat ((Z.of_nat (S n) - 1) * perPage))
    with (n * Z.to_nat perPage)%nat by nia.
  rewrite take_take_drop. f_equal. lia.
Qed.

Lemma length_concat_sum {A} (ls : list (list A)) :
  length (concat ls) = sum_list (length <$> ls).
Proof.
  induction ls as [|l ls IH]; [done|].
  rewrite fmap_cons. simpl. by rewrite length_app, IH.
Qed.

(** C2: for a page size above zero the page count is the ceiling of the
    length over the page size; page [p] holds the elements at the indices
    from [(p-1) * perPage] up to, not including, [p * perPage], as far as
    the list goes; the pages 1 to the page count, in order, make up the
    list again, so their lengths add up to its length and no element is
    left out or taken twice. A list of 45 elements has 3 pages of 20, and
    page 3 holds the elements at the indices 40 to 44. *)
Theorem pages_partition perPage filtered :
  0 < perPage →
  (perPage * (Home.pageCount perPage filtered - 1) < Z.of_nat (length filtered)
     ≤ perPage * Home.pageCount perPage filtered) ∧
  Home.pageCount perPage filtered =
    (Z.of_nat (length filtered) + perPage - 1) `div` perPage ∧
  (∀ p (i : nat), 1 ≤ p →
     Home.pageSlice perPage filtered p !! i =
     if decide (Z.of_nat i < perPage)
     then filtered !! (Z.to_nat ((p - 1) * perPage) + i)%nat
     else None) ∧
  (∀ p, 1 ≤ p →
     Z.of_nat (length (Home.pageSlice perPage filtered p)) =
     Z.max 0 (Z.min (p * perPage) (Z.of_nat (length filtered))
              - (p - 1) * perPage)) ∧
  concat (Home.pageSlice perPage filtered <$>
            (Z.of_nat <$> seq 1 (Z.to_nat (Home.pageCount perPage filtered))))
    = filtered ∧
  sum_list (length <$> (Home.pageSlice perPage filtered <$>
            (Z.of_nat <$> seq 1 (Z.to_nat (Home.pageCount perPage filtered)))))
    = length filtered ∧
  (length filtered = 45%nat →
     Home.totalPages filtered = 3 ∧
     Home.currentMovies filtered 3 = drop 40 filtered ∧
     length (Home.currentMovies filtered 3) = 5%nat ∧
     ∀ i : nat, (i < 5)%nat →
       Home.currentMovies filtered 3 !! i = filtered !! (40 + i)%nat).
Proof.
  intros Hpos.
  assert (concat (Home.pageSlice perPage filtered <$>
            (Z.of_nat <$> seq 1 (Z.to_nat (Home.pageCount perPage filtered))))
          = filtered) as Hcat.
  { rewrite pages_concat by done. apply take_ge.
    pose proof (pageCount_bounds perPage filtered Hpos). nia. }
  split; [by apply pageCount_bounds|]. split_and!.
  - by apply pageCount_closed.
  - intros p i Hp. by apply pageSlice_lookup.
  - intros p Hp. by apply pageSlice_length.
  - done.
  - by rewrite <- length_concat_sum, Hcat.
  - intros H45.
    assert (Home.currentMovies filtered 3 = drop 40 filtered) as Hthird.
    { unfold Home.currentMovies. rewrite pageSlice_take_drop by done.
      change (Z.to_nat ((3 - 1) * Home.MOVIES_PER_PAGE)) with 40%nat.
      apply take_ge. rewrite length_drop, H45.
      unfold Home.MOVIES_PER_PAGE. lia. }
    split_and!.
    + unfold Home.totalPages. rewrite pageCount_div by done. by rewrite H45.
    + done.
    + rewrite Hthird, length_drop, H45. done.
    + intros i Hi. rewrite Hthird. apply lookup_drop.
Qed.

End Pages.

Lemma pages_partition_witness :
  Home.totalPages movies45 = 3 ∧
  title <$> Home.currentMovies movies45 3 = ["40"; "41"; "42"; "43"; "44"] ∧
  concat (Home.currentMovies movies45 <$> [1; 2; 3]) = movies45.
Proof.
  destruct (pages_partition 20 movies45) as (_ & _ & _ & _ & Hcat & _ & H45);
    [lia|].
  destruct (H45 eq_refl) as (Hcount & Hthird & _).
  split; [exact Hcount|]. split; [by rewrite Hthird | exact Hcat].
Defined.


(** ** Handlers and effects *)

Section Effects.

Implicit Types (prev seen st : Home.State) (ev : Home.Event).

Ltac effect_cases :=
  unfold Home.runEffects; cbv zeta;
  repeat case_bool_decide; simpl orb; cbv iota.

Lemma runEffects_idle prev seen :
  Home.criteria prev = Home.criteria seen →
  Home.searchParams prev = Home.searchParams seen →
  Home.runEffects prev seen = seen.
Proof. intros Hc Hp. by effect_cases. Qed.

Lemma runEffects_currentPage prev seen :
  Home.currentPage (Home.runEffects prev seen) =
  if decide (Home.criteria prev = Home.criteria seen)
  then Home.currentPage seen else 1.
Proof. effect_cases; by case_decide. Qed.

Lemma runEffects_moviesData prev seen :
  Home.moviesData (Home.runEffects prev seen) = Home.moviesData seen.
Proof. by effect_cases. Qed.

Lemma runEffects_criteria prev seen :
  Home.searchParams prev = Home.searchParams seen →
  Home.criteria (Home.runEffects prev seen) = Home.criteria seen.
Proof. intros Hp. by effect_cases. Qed.

Lemma settle_fix rounds prev seen :
  Home.runEffects prev seen = seen → Home.settle rounds prev seen = seen.
Proof.
  intros Hfix. destruct rounds as [|rounds]; simpl; [done|].
  by rewrite decide_True.
Qed.

Lemma settle_moviesData rounds prev seen :
  Home.moviesData (Home.settle rounds prev seen) = Home.moviesData seen.
Proof.
  revert prev seen. induction rounds as [|rounds IH]; intros prev seen; simpl;
    [done|].
  case_decide; [done|]. by rewrite IH, runEffects_moviesData.
Qed.



(** *** Two rounds are enough *)

Lemma truthy_false s : JS.truthy s = false → s = "".
Proof.
  unfold JS.truthy. intros H%negb_false_iff. by apply String.eqb_eq.
Qed.

(** Reading back the query string that was written from the filter fields
    gives the filter fields. *)
Lemma readUrl_updateUrl st :
  Home.searchParams st = urlOf st → Home.readUrl st st = st.
Proof.
  unfold urlOf, Home.readUrl, Home.updateUrl. intros ->.
  destruct st as [md cp ld er sp q g y r]. simpl.
  destruct (JS.truthy q) eqn:Eq; destruct (JS.truthy g) eqn:Eg;
    destruct (JS.truthy y) eqn:Ey; destruct (JS.truthy r) eqn:Er;
    simpl;
    rewrite ?Eq, ?Eg, ?Ey, ?Er;
    try apply truthy_false in Eq; try apply truthy_false in Eg;
    try apply truthy_false in Ey; try apply truthy_false in Er;
    subst; reflexivity.
Qed.

Lemma updateUrl_same st :
  Home.searchParams st = urlOf st → Home.updateUrl st st = st.
Proof.
  unfold urlOf, Home.updateUrl, Home.setSearchParams.
  destruct st; simpl. congruence.
Qed.

(** After a render that kept the query string, one round of effects is
    all that happens. *)
Lemma runEffects_twice prev seen :
  Home.searchParams prev = Home.searchParams seen →
  Home.runEffects seen (Home.runEffects prev seen) = Home.runEffects prev seen.
Proof.
  intros Hp.
  destruct (decide (Home.criteria prev = Home.criteria seen)) as [Hsame|Hne].
  { rewrite (runEffects_idle prev seen) by done. by apply runEffects_idle. }
  assert (Home.criteria (Home.runEffects prev seen) = Home.criteria seen)
    as Hc by by apply runEffects_criteria.
  assert (Home.searchParams (Home.runEffects prev seen) =
          urlOf (Home.runEffects prev seen)) as Hu.
  { unfold urlOf. by effect_cases. }
  remember (Home.runEffects prev seen) as next eqn:Enext. clear Enext.
  effect_cases; try done; try congruence.
  rewrite updateUrl_same by done. by apply readUrl_updateUrl.
Qed.

Lemma settle_one rounds prev seen :
  Home.searchParams prev = Home.searchParams seen →
  Home.settle (S rounds) prev seen = Home.runEffects prev seen.
Proof.
  intros Hp. simpl. case_decide as Hnext; [done|].
  apply settle_fix. by apply runEffects_twice.
Qed.

(** Every handler leaves the query string alone. *)
Lemma handle_searchParams ev st :
  Home.searchParams st = Home.searchParams (Home.handle ev st).
Proof.
  destruct ev; simpl; auto. unfold Home.loadMovies.
  by destruct (fetchMovies outcome).
Qed.

Lemma step_runEffects st ev :
  Home.step st ev = Home.runEffects st (Home.handle ev st).
Proof. apply settle_one, handle_searchParams. Qed.

(** More rounds than [ROUNDS] change nothing: [step] ends in a state that
    the effects leave as it is. *)
Lemma step_settled st ev (more : nat) :
  Home.settle (Home.ROUNDS + more) st (Home.handle ev st) = Home.step st ev ∧
  Home.runEffects (Home.handle ev st) (Home.step st ev) = Home.step st ev.
Proof.
  rewrite step_runEffects. split.
  - apply settle_one, handle_searchParams.
  - apply runEffects_twice, handle_searchParams.
Qed.

(** The events that set a filter field set it for good. *)
Lemma step_criteria st ev :
  Home.criteria (Home.step st ev) = Home.criteria (Home.handle ev st).
Proof.
  rewrite step_runEffects. apply runEffects_criteria, handle_searchParams.
Qed.

(** Typing a search term or choosing a genre, year or rating that differs
    from the current one stores it and ends on page 1. *)
Lemma field_event_resets_page st ev (field : Home.State → string) value :
  (ev = Home.SearchInput value ∧ field = Home.searchTerm) ∨
  (ev = Home.GenreSelect value ∧ field = Home.selectedGenre) ∨
  (ev = Home.YearSelect value ∧ field = Home.selectedYear) ∨
  (ev = Home.RatingSelect value ∧ field = Home.selectedRating) →
  field st ≠ value →
  field (Home.step st ev) = value ∧ Home.currentPage (Home.step st ev) = 1.
Proof.
  intros Hev Hne.
  assert (field (Home.handle ev st) = value ∧
          (∀ s s', Home.criteria s = Home.criteria s' → field s = field s'))
    as [Hset Hfield].
  { destruct Hev as [[-> ->]|[[-> ->]|[[-> ->]|[-> ->]]]];
      (split; [done|]); intros s s' [=]; done. }
  split.
  - rewrite <- Hset. apply Hfield, step_criteria.
  - rewrite step_runEffects, runEffects_currentPage.
    case_decide as Hsame; [|done]. apply Hfield in Hsame. congruence.
Qed.

End Effects.



(** ** What the page shows *)

Section Shown.

Context `{runtime : !JS.Runtime}.

Lemma render_grid st grid :
  Home.render st = Home.GridView grid →
  Home.options grid = Home.filterOptions (Home.moviesData st).
Proof.
  unfold Home.render. destruct (Home.loading st); [discriminate|].
  destruct (JS.truthy _); [discriminate|].
  destruct (Home.moviesData st); [|discriminate].
  by intros [= <-].
Qed.

Lemma step_moviesData st ev :
  (∀ outcome, ev ≠ Home.FetchSettled outcome) →
  Home.moviesData (Home.step st ev) = Home.moviesData st.
Proof.
  intros Hev. unfold Home.step. rewrite settle_moviesData.
  destruct ev; try done. by destruct (Hev outcome).
Qed.

(** C3: the option sets shown are those of the catalog alone: they are
    [filterOptions] of the loaded document, two states with the same
    document and any filter fields show the same options, and no event
    other than the arrival of the document changes them, so entering
    criteria never narrows them. *)
Theorem filterOptions_catalog_alone :
  (∀ st grid,
     Home.render st = Home.GridView grid →
     Home.options grid = Home.filterOptions (Home.moviesData st)) ∧
  (∀ st1 st2 grid1 grid2,
     Home.moviesData st1 = Home.moviesData st2 →
     Home.render st1 = Home.GridView grid1 →
     Home.render st2 = Home.GridView grid2 →
     Home.options grid1 = Home.options grid2) ∧
  (∀ st ev grid grid',
     (∀ outcome, ev ≠ Home.FetchSettled outcome) →
     Home.render st = Home.GridView grid →
     Home.render (Home.step st ev) = Home.GridView grid' →
     Home.options grid' = Home.options grid).
Proof.
  split_and!.
  - apply render_grid.
  - intros st1 st2 grid1 grid2 Hdata H1%render_grid H2%render_grid. congruence.
  - intros st ev grid grid' Hev H1%render_grid H2%render_grid.
    rewrite step_moviesData in H2 by done. congruence.
Qed.

End Shown.

Section Example_options.

#[local] Existing Instance JS.ascii_runtime.

Lemma filterOptions_catalog_alone_witness :
  optionsShown browsing =
    Some {| FilterOptions.genres := ["Drama"];
            FilterOptions.years := ["2001"; "2000"];
            FilterOptions.ratings := ["PG-13"] |} ∧
  Home.criteria (Home.step browsing (Home.YearSelect "2001"))
    = ("", "", "2001", "") ∧
  optionsShown (Home.step browsing (Home.YearSelect "2001")) =
    optionsShown browsing.
Proof.
  split; [reflexivity|]. split; [reflexivity|].
  destruct filterOptions_catalog_alone as (_ & _ & Hstep).
  assert (∃ grid, Home.render browsing = Home.GridView grid) as [grid E1]
    by (eexists; vm_compute; reflexivity).
  assert (∃ grid', Home.render (Home.step browsing (Home.YearSelect "2001"))
                   = Home.GridView grid') as [grid' E2]
    by (eexists; vm_compute; reflexivity).
  unfold optionsShown. rewrite E1, E2. f_equal.
  by apply (Hstep browsing (Home.YearSelect "2001") grid grid').
Defined.

End Example_options.

(** C9: from page 1 on the slice is defined for every list and every page
    number, it is the empty list when the page starts at or after the end
    of the list, an empty list has 0 pages and an empty slice on every
    page, and a page click stores the page number as it is, however large. *)
Theorem currentMovies_total (filtered : list Movie) (p : Z) :
  1 ≤ p →
  Home.currentMovies filtered p =
    take 20 (drop (Z.to_nat ((p - 1) * 20)) filtered) ∧
  (Z.of_nat (length filtered) ≤ (p - 1) * 20 →
     Home.currentMovies filtered p = []) ∧
  (filtered = [] →
     Home.totalPages filtered = 0 ∧ Home.currentMovies filtered p = []) ∧
  (∀ st, Home.currentPage (Home.step st (Home.PageClick p)) = p).
Proof.
  intros Hp.
  assert (Home.currentMovies filtered p =
          take 20 (drop (Z.to_nat ((p - 1) * 20)) filtered)) as Heq.
  { unfold Home.currentMovies. by rewrite pageSlice_take_drop. }
  split_and!.
  - done.
  - intros Hout. rewrite Heq, drop_ge by lia. done.
  - intros ->. split; [done|]. rewrite Heq, drop_nil. done.
  - intros st. by rewrite step_runEffects, runEffects_idle.
Qed.


Lemma currentMovies_total_witness :
  Home.currentMovies (movies catalog3) 7 = [] ∧
  Home.currentPage (Home.step browsing (Home.PageClick 7)) = 7.
Proof.
  destruct (currentMovies_total (movies catalog3) 7) as (_ & Hout & _ & Hclick);
    [lia|].
  split; [apply Hout; simpl; lia | apply Hclick].
Defined.

(** ** Sets and sorting *)

Section Sets.

Implicit Types (s xs : list string) (x y : string).

Lemma Set_add_NoDup s x : NoDup s → NoDup (JS.Set_add s x).
Proof.
  intros Hnd. unfold JS.Set_add.
  destruct (JS.Array_includes s x) eqn:E; [done|].
  apply NoDup_app. split_and!; [done| |apply NoDup_singleton].
  intros y Hy ->%list_elem_of_singleton.
  apply Array_includes_true in Hy. congruence.
Qed.

Lemma Set_add_elem s x y : y ∈ JS.Set_add s x ↔ y ∈ s ∨ y = x.
Proof.
  unfold JS.Set_add. destruct (JS.Array_includes s x) eqn:E.
  - apply Array_includes_true in E. split; [auto|]. intros [?| ->]; done.
  - rewrite elem_of_app, list_elem_of_singleton. done.
Qed.

Lemma Set_add_all_NoDup xs s : NoDup s → NoDup (fold_left JS.Set_add xs s).
Proof.
  revert s. induction xs as [|x xs IH]; intros s Hnd; simpl; [done|].
  by apply IH, Set_add_NoDup.
Qed.

Lemma Set_add_all_elem xs s y :
  y ∈ fold_left JS.Set_add xs s ↔ y ∈ s ∨ y ∈ xs.
Proof.
  revert s. induction xs as [|x xs IH]; intros s; simpl.
  - rewrite elem_of_nil. tauto.
  - rewrite IH, Set_add_elem, elem_of_cons. tauto.
Qed.

Lemma collect_NoDup (ms : list Movie) acc :
  sets_NoDup acc → sets_NoDup (fold_left Home.collect ms acc).
Proof.
  revert acc. induction ms as [|m ms IH]; intros acc (Hg & Hy & Hr); simpl;
    [done|].
  apply IH. unfold Home.collect, sets_NoDup. simpl.
  auto using Set_add_all_NoDup, Set_add_NoDup.
Qed.

Lemma collect_elem (ms : list Movie) acc :
  (∀ g, g ∈ Home.allGenres (fold_left Home.collect ms acc) ↔
        g ∈ Home.allGenres acc ∨ ∃ m, m ∈ ms ∧ g ∈ genres m) ∧
  (∀ y, y ∈ Home.allYears (fold_left Home.collect ms acc) ↔
        y ∈ Home.allYears acc ∨ ∃ m, m ∈ ms ∧ year m = y) ∧
  (∀ r, r ∈ Home.allRatings (fold_left Home.collect ms acc) ↔
        r ∈ Home.allRatings acc ∨ ∃ m, m ∈ ms ∧ rating m = r).
Proof.
  revert acc. induction ms as [|m ms IH]; intros acc; simpl.
  - split_and!; intros z; split; auto; intros [?|(? & []%elem_of_nil & _)];
      done.
  - destruct (IH (Home.collect acc m)) as (Hg & Hy & Hr).
    split_and!; intros z.
    + rewrite Hg. simpl. rewrite Set_add_all_elem. split.
      * intros [[?|?]|(m' & ? & ?)]; [by left| |];
          right; [exists m|exists m']; split; try done; by constructor.
      * intros [?|(m' & [->|?]%elem_of_cons & ?)]; [by left; left| |].
        -- left. by right.
        -- right. by exists m'.
    + rewrite Hy. simpl. rewrite Set_add_elem. split.
      * intros [[?| ->]|(m' & ? & ?)]; [by left| |];
          right; [exists m|exists m']; split; try done; by constructor.
      * intros [?|(m' & [->|?]%elem_of_cons & ?)]; [by left; left| |].
        -- left. by right.
        -- right. by exists m'.
    + rewrite Hr. simpl. rewrite Set_add_elem. split.
      * intros [[?| ->]|(m' & ? & ?)]; [by left| |];
          right; [exists m|exists m']; split; try done; by constructor.
      * intros [?|(m' & [->|?]%elem_of_cons & ?)]; [by left; left| |].
        -- left. by right.
        -- right. by exists m'.
Qed.

End Sets.

Section Sorting.

Context {A : Type} (comparefn : A → A → option Z).

Lemma sort_insert_perm x (l : list A) : JS.sort_insert comparefn x l ≡ₚ x :: l.
Proof.
  induction l as [|y l IH]; simpl; [done|].
  destruct (0 <? JS.SortCompare comparefn x y); [|done].
  rewrite IH. apply Permutation_swap.
Qed.

Lemma Array_sort_perm (l : list A) : JS.Array_sort comparefn l ≡ₚ l.
Proof.
  induction l as [|x l IH]; simpl; [done|].
  by rewrite sort_insert_perm, IH.
Qed.

(** The comparator agrees with an order [R] on the elements in [D]. *)
Context (D : A → Prop) (R : A → A → Prop).
Hypothesis before : ∀ x y, D x → D y → JS.SortCompare comparefn x y ≤ 0 → R x y.
Hypothesis after : ∀ x y, D x → D y → 0 < JS.SortCompare comparefn x y → R y x.
Hypothesis R_trans : ∀ x y z, D x → D y → D z → R x y → R y z → R x z.

Lemma sort_insert_sorted x (l : list A) :
  D x → Forall D l → StronglySorted R l →
  StronglySorted R (JS.sort_insert comparefn x l).
Proof.
  intros Hx. induction l as [|y l IH]; intros HD Hs; simpl.
  - repeat constructor.
  - apply Forall_cons in HD as [Hy HD].
    apply StronglySorted_inv in Hs as [Hs Hyl].
    destruct (0 <? JS.SortCompare comparefn x y) eqn:E.
    + apply Z.ltb_lt in E. constructor; [by apply IH|].
      rewrite sort_insert_perm. constructor; [by apply after | done].
    + apply Z.ltb_ge in E. assert (R x y) as Hxy by by apply before.
      constructor; [by constructor|]. constructor; [done|].
      rewrite Forall_forall in Hyl, HD. apply Forall_forall.
      intros z Hz. eapply (R_trans x y z); eauto.
Qed.

Lemma Array_sort_sorted (l : list A) :
  Forall D l → StronglySorted R (JS.Array_sort comparefn l).
Proof.
  induction l as [|x l IH]; intros HD; simpl; [constructor|].
  apply Forall_cons in HD as [Hx HD].
  apply sort_insert_sorted; [done| |by apply IH].
  by rewrite Array_sort_perm.
Qed.

End Sorting.

(** *** The two orders *)

Lemma compare_Lt_lex s t : String.compare s t = Lt ↔ lex_lt s t.
Proof.
  revert t. induction s as [|a s IH]; intros [|b t]; simpl.
  - split; [discriminate | inversion 1].
  - split; [constructor | done].
  - split; [discriminate | inversion 1].
  - unfold Ascii.compare.
    destruct (N.compare_spec (N_of_ascii a) (N_of_ascii b)) as [He|Hl|Hg].
    + apply code_inj in He as ->. rewrite IH. split; [by constructor|].
      inversion 1; subst; [lia | done].
    + split; [by constructor | done].
    + split; [discriminate|]. inversion 1; subst; lia.
Qed.

Lemma String_le_compare s t : String.le s t ↔ String.compare s t ≠ Gt.
Proof.
  unfold String.le, String.leb. destruct (String.compare s t); simpl;
    split; try done.
Qed.

Lemma defaultCompare_before x y :
  JS.SortCompare JS.defaultCompare x y ≤ 0 → String.le x y.
Proof.
  rewrite String_le_compare. unfold JS.SortCompare, JS.defaultCompare. simpl.
  destruct (String.compare x y); [done..|lia].
Qed.

Lemma defaultCompare_after x y :
  0 < JS.SortCompare JS.defaultCompare x y → String.le y x.
Proof.
  rewrite String_le_compare, String.compare_antisym.
  unfold JS.SortCompare, JS.defaultCompare. simpl.
  destruct (String.compare x y); simpl; [lia|lia|done].
Qed.

(** [sort()] gives the strictly ascending arrangement of distinct strings. *)
Lemma default_sort_ascending (l : list string) :
  NoDup l → StronglySorted lex_lt (JS.Array_sort JS.defaultCompare l).
Proof.
  intros Hnd.
  assert (StronglySorted String.le (JS.Array_sort JS.defaultCompare l)) as Hs.
  { apply (Array_sort_sorted JS.defaultCompare (λ _, True) String.le).
    - intros x y _ _. apply defaultCompare_before.
    - intros x y _ _. apply defaultCompare_after.
    - intros x y z _ _ _ Hxy Hyz. by etrans.
    - by apply Forall_true. }
  assert (NoDup (JS.Array_sort JS.defaultCompare l)) as Hnd'
    by by rewrite Array_sort_perm.
  induction Hs as [|x l' Hs IH Hx]; [constructor|].
  apply NoDup_cons in Hnd' as [Hnotin Hnd']. constructor; [by apply IH|].
  rewrite Forall_forall in Hx. apply Forall_forall. intros z Hz.
  apply compare_Lt_lex. specialize (Hx z Hz).
  apply String_le_compare in Hx.
  destruct (String.compare x z) eqn:E; [|done..].
  apply String.compare_eq_iff in E as ->. done.
Qed.

(** *** Years as numbers *)

Lemma digit_value c :
  is_digit c → JS.digitValue c = Some (Z.of_N (N_of_ascii c) - 48).
Proof.
  unfold is_digit, JS.digitValue. intros [H1 H2]. cbv zeta.
  replace (48 <=? Z.of_N (N_of_ascii c)) with true
    by (symmetry; apply Z.leb_le; lia).
  replace (Z.of_N (N_of_ascii c) <=? 57) with true
    by (symmetry; apply Z.leb_le; lia).
  done.
Qed.

Lemma parseDigits_decimal s acc :
  all_digits s → JS.parseDigits 10 s (Some acc) = Some (decimal acc s).
Proof.
  revert acc. induction s as [|c s IH]; intros acc Hs; simpl; [done|].
  destruct Hs as [Hc Hs]. rewrite digit_value by done.
  replace (Z.of_N (N_of_ascii c) - 48 <? 10) with true
    by (symmetry; apply Z.ltb_lt; unfold is_digit in Hc; lia).
  by apply IH.
Qed.

(** A non-empty string of decimal digits is read as the number it writes. *)
Lemma parseInt_digits s :
  s ≠ "" → all_digits s → JS.parseInt s = Some (decimal 0 s).
Proof.
  destruct s as [|c s]; [done|]. intros _ [Hc Hs].
  assert (∀ c', ¬ is_digit c' → String.prefix (String c' "") (String c s) = false)
    as Hfirst.
  { intros c' Hc'. destruct (String.prefix _ _) eqn:E; [|done].
    apply prefix_true in E as [rest E]. rewrite append_unit in E.
    by injection E as -> _. }
  assert (JS.isWhiteSpace c = false) as Hws.
  { unfold JS.isWhiteSpace, is_digit in *. cbv zeta.
    apply orb_false_iff. split; [apply andb_false_iff; right|];
      [apply N.leb_gt | apply N.eqb_neq]; lia. }
  assert (∀ x, ¬ is_digit x →
            String.prefix (String "0" (String x "")) (String c s) = false)
    as Hsecond.
  { intros x Hx. destruct (String.prefix _ _) eqn:E; [|done].
    apply prefix_true in E as [rest E]. rewrite !append_unit in E.
    injection E as -> ->. by destruct Hs. }
  assert (JS.trimStart (String c s) = String c s) as Htrim
    by (simpl; by rewrite Hws).
  assert (JS.parseDigits 10 (String c s) None = Some (decimal 0 (String c s)))
    as Hdigits.
  { simpl. rewrite digit_value by done.
    replace (Z.of_N (N_of_ascii c) - 48 <? 10) with true
      by (symmetry; apply Z.ltb_lt; unfold is_digit in Hc; lia).
    by rewrite parseDigits_decimal. }
  unfold JS.parseInt. cbv zeta. rewrite Htrim.
  rewrite !Hfirst by (unfold is_digit; simpl; lia).
  unfold orb. cbv iota.
  rewrite !Hsecond by (unfold is_digit; simpl; lia).
  cbv iota. rewrite Hdigits. f_equal. lia.
Qed.

Lemma byYearDescending_before x y :
  is_Some (JS.parseInt x) → is_Some (JS.parseInt y) →
  JS.SortCompare Home.byYearDescending x y ≤ 0 → parsed_ge x y.
Proof.
  intros [nx Hx] [ny Hy]. unfold JS.SortCompare, Home.byYearDescending.
  rewrite Hx, Hy. simpl. intros H. exists nx, ny. split_and!; [done..|lia].
Qed.

Lemma byYearDescending_after x y :
  is_Some (JS.parseInt x) → is_Some (JS.parseInt y) →
  0 < JS.SortCompare Home.byYearDescending x y → parsed_ge y x.
Proof.
  intros [nx Hx] [ny Hy]. unfold JS.SortCompare, Home.byYearDescending.
  rewrite Hx, Hy. simpl. intros H. exists ny, nx. split_and!; [done..|lia].
Qed.

Lemma parsed_ge_trans x y z : parsed_ge x y → parsed_ge y z → parsed_ge x z.
Proof.
  intros (nx & ny & Hx & Hy & H1) (ny' & nz & Hy' & Hz & H2).
  exists nx, nz. split_and!; [done..|]. simplify_eq. lia.
Qed.

Lemma year_sort_descending (l : list string) :
  Forall (λ y, is_Some (JS.parseInt y)) l →
  StronglySorted parsed_ge (JS.Array_sort Home.byYearDescending l).
Proof.
  apply (Array_sort_sorted Home.byYearDescending
           (λ y, is_Some (JS.parseInt y)) parsed_ge).
  - apply byYearDescending_before.
  - apply byYearDescending_after.
  - intros x y z _ _ _. apply parsed_ge_trans.
Qed.

Lemma StronglySorted_weaken {A} (R1 R2 : A → A → Prop) (l : list A) :
  (∀ x y, x ∈ l → y ∈ l → R1 x y → R2 x y) →
  StronglySorted R1 l → StronglySorted R2 l.
Proof.
  intros Himp Hs. induction Hs as [|x l Hs IH Hx]; [constructor|].
  constructor.
  - apply IH. intros y z Hy Hz. apply Himp; by constructor.
  - rewrite Forall_forall in Hx. apply Forall_forall. intros z Hz.
    apply Himp; [by constructor | by constructor | by apply Hx].
Qed.

Lemma StronglySorted_strict {A} (R : A → A → Prop) (l : list A) :
  NoDup l → StronglySorted R l → StronglySorted (λ x y, R x y ∧ x ≠ y) l.
Proof.
  intros Hnd Hs. induction Hs as [|x l Hs IH Hx]; [constructor|].
  apply NoDup_cons in Hnd as [Hnotin Hnd]. constructor; [by apply IH|].
  rewrite Forall_forall in Hx. apply Forall_forall. intros z Hz.
  split; [by apply Hx|]. by intros ->.
Qed.

(** Two four-digit years that write the same number are the same string. *)
Lemma four_digit_year_inj a b :
  four_digit_year a → four_digit_year b →
  decimal 0 a = decimal 0 b → a = b.
Proof.
  unfold four_digit_year.
  destruct a as [|a1 [|a2 [|a3 [|a4 [|]]]]]; intros [Ha Hda]; try discriminate.
  destruct b as [|b1 [|b2 [|b3 [|b4 [|]]]]]; intros [Hb Hdb]; try discriminate.
  simpl in Hda, Hdb. unfold is_digit in Hda, Hdb. simpl. intros Heq.
  assert (N_of_ascii a1 = N_of_ascii b1 ∧ N_of_ascii a2 = N_of_ascii b2 ∧
          N_of_ascii a3 = N_of_ascii b3 ∧ N_of_ascii a4 = N_of_ascii b4)
    as (H1 & H2 & H3 & H4) by lia.
  apply code_inj in H1, H2, H3, H4. congruence.
Qed.

(** C4: the three option lists are duplicate-free; the genres are those of
    some record, the years and the ratings those of some record; genres
    and ratings ascend in code-unit order; and when every year reads as a
    number, the years descend by that number. The four-digit years of the
    data model read as the number they write, so there the years descend
    strictly by it. *)
Theorem filterOptions_distinct_sorted (data : MoviesData) :
  (NoDup (FilterOptions.genres (Home.filterOptions (Some data))) ∧
   (∀ g, g ∈ FilterOptions.genres (Home.filterOptions (Some data)) ↔
         ∃ m, m ∈ movies data ∧ g ∈ genres m) ∧
   StronglySorted lex_lt (FilterOptions.genres (Home.filterOptions (Some data)))) ∧
  (NoDup (FilterOptions.ratings (Home.filterOptions (Some data))) ∧
   (∀ r, r ∈ FilterOptions.ratings (Home.filterOptions (Some data)) ↔
         ∃ m, m ∈ movies data ∧ rating m = r) ∧
   StronglySorted lex_lt (FilterOptions.ratings (Home.filterOptions (Some data)))) ∧
  (NoDup (FilterOptions.years (Home.filterOptions (Some data))) ∧
   (∀ y, y ∈ FilterOptions.years (Home.filterOptions (Some data)) ↔
         ∃ m, m ∈ movies data ∧ year m = y) ∧
   ((∀ m, m ∈ movies data → reads_number (year m)) →
    StronglySorted parsed_ge
      (FilterOptions.years (Home.filterOptions (Some data)))) ∧
   ((∀ m, m ∈ movies data → four_digit_year (year m)) →
    StronglySorted (λ a b, decimal 0 b < decimal 0 a)
      (FilterOptions.years (Home.filterOptions (Some data))))).
Proof.
  unfold Home.filterOptions. cbv zeta. simpl.
  set (empty := {| Home.allGenres := []; Home.allYears := [];
                   Home.allRatings := [] |}).
  destruct (collect_NoDup (movies data) empty) as (Hg & Hy & Hr).
  { repeat split; apply NoDup_nil_2. }
  destruct (collect_elem (movies data) empty) as (Eg & Ey & Er).
  assert ((∀ m, m ∈ movies data → is_Some (JS.parseInt (year m))) →
          StronglySorted parsed_ge
            (JS.Array_sort Home.byYearDescending
               (Home.allYears (fold_left Home.collect (movies data) empty))))
    as Hyears.
  { intros Hnum. apply year_sort_descending, Forall_forall.
    intros y [[]%elem_of_nil|(m & Hm & <-)]%Ey. by apply Hnum. }
  split_and!.
  - by rewrite Array_sort_perm.
  - intros g. rewrite Array_sort_perm, Eg. simpl. rewrite elem_of_nil. tauto.
  - by apply default_sort_ascending.
  - by rewrite Array_sort_perm.
  - intros r. rewrite Array_sort_perm, Er. simpl. rewrite elem_of_nil. tauto.
  - by apply default_sort_ascending.
  - by rewrite Array_sort_perm.
  - intros y. rewrite Array_sort_perm, Ey. simpl. rewrite elem_of_nil. tauto.
  - intros Hnum. apply Hyears. intros m Hm.
    destruct (Hnum m Hm) as (n & Hn & _). by exists n.
  - intros Hfour.
    assert (∀ y, y ∈ JS.Array_sort Home.byYearDescending
              (Home.allYears (fold_left Home.collect (movies data) empty)) →
            four_digit_year y) as Hall.
    { intros y. rewrite Array_sort_perm.
      intros [[]%elem_of_nil|(m & Hm & <-)]%Ey. by apply Hfour. }
    assert (∀ y, four_digit_year y → JS.parseInt y = Some (decimal 0 y))
      as Hval.
    { intros y [Hlen Hdig]. apply parseInt_digits; [|done]. by destruct y. }
    eapply StronglySorted_weaken;
      [|apply StronglySorted_strict;
        [by rewrite Array_sort_perm | apply Hyears]].
    + intros a b Ha Hb [(na & nb & Hna & Hnb & Hle) Hne].
      rewrite (Hval a (Hall a Ha)) in Hna.
      rewrite (Hval b (Hall b Hb)) in Hnb. simplify_eq.
      destruct (decide (decimal 0 a = decimal 0 b)) as [Heq|]; [|lia].
      destruct Hne. by apply four_digit_year_inj; auto.
    + intros m Hm. rewrite (Hval _ (Hfour m Hm)). done.
Qed.

Lemma filterOptions_distinct_sorted_witness :
  Home.filterOptions (Some catalog4) =
    {| FilterOptions.genres :=
         ["Adventure"; "Animation"; "Crime"; "Drama"; "Horror"; "Sci-Fi"];
       FilterOptions.years := ["2009"; "1995"; "1979"];
       FilterOptions.ratings := ["PG"; "R"] |} ∧
  StronglySorted (λ a b, decimal 0 b < decimal 0 a)
    (FilterOptions.years (Home.filterOptions (Some catalog4))).
Proof.
  split; [reflexivity|].
  apply (filterOptions_distinct_sorted catalog4).
  intros m Hm. unfold four_digit_year.
  repeat (apply elem_of_cons in Hm as [->|Hm]);
    [simpl; unfold is_digit; simpl; repeat split; lia..
    |by apply elem_of_nil in Hm].
Defined.

(** ** The detail route *)

Section Lookup.

Variable decodeURIComponent : string → Thrown + string.

Context `{runtime : !JS.Runtime}.

Implicit Types (m : Movie) (data : MoviesData).

Lemma sameTitle_true decodedTitle m :
  MovieDetail.sameTitle decodedTitle m = true ↔
  eq_ignore_case (title m) decodedTitle.
Proof.
  unfold MovieDetail.sameTitle, eq_ignore_case. by rewrite String.eqb_eq.
Qed.

Lemma Array_find_first {A} (p : A → bool) (before after : list A) (x : A) :
  (∀ y, y ∈ before → p y = false) → p x = true →
  JS.Array_find p (before ++ x :: after) = Some x.
Proof.
  intros Hbefore Hx. induction before as [|y before IH]; simpl.
  - by rewrite Hx.
  - rewrite (Hbefore y) by by left. apply IH. intros z Hz.
    apply Hbefore. by right.
Qed.

Lemma Array_find_Some {A} (p : A → bool) (l : list A) (x : A) :
  JS.Array_find p l = Some x →
  ∃ before after,
    l = before ++ x :: after ∧ p x = true ∧ ∀ y, y ∈ before → p y = false.
Proof.
  induction l as [|y l IH]; simpl; [discriminate|].
  destruct (p y) eqn:E.
  - intros [= ->]. exists [], l. split_and!; [done..|].
    intros z []%elem_of_nil.
  - intros (before & after & -> & Hx & Hbefore)%IH.
    exists (y :: before), after. split_and!; [done..|].
    intros z [->|Hz]%elem_of_cons; auto.
Qed.

Lemma Array_find_None {A} (p : A → bool) (l : list A) :
  JS.Array_find p l = None ↔ ∀ y, y ∈ l → p y = false.
Proof.
  induction l as [|y l IH]; simpl.
  - split; [intros _ z []%elem_of_nil | done].
  - destruct (p y) eqn:E.
    + split; [discriminate|]. intros H. specialize (H y ltac:(by left)).
      congruence.
    + rewrite IH. split.
      * intros H z [->|Hz]%elem_of_cons; auto.
      * intros H z Hz. apply H. by right.
Qed.

(** The page for a non-empty title parameter that decodes, once the
    document has arrived: the result of [find] decides. *)
Lemma page_found titleParam decodedTitle data :
  JS.truthy titleParam = true →
  decodeURIComponent titleParam = inr decodedTitle →
  MovieDetail.page decodeURIComponent (Some titleParam)
    (Responded true (inr data)) =
  match MovieDetail.findMovie decodedTitle data with
  | Some m => MovieDetail.DetailView m
  | None => MovieDetail.MessageView "Movie not found"
  end.
Proof.
  intros Htitle Hdecode.
  unfold MovieDetail.page, MovieDetail.onTitle, MovieDetail.loadMovie,
    MovieDetail.tryLookup.
  simpl. rewrite Htitle. simpl. rewrite Htitle, Hdecode.
  by destruct (MovieDetail.findMovie decodedTitle data).
Qed.

(** C7: the decoded title is matched against the titles of the document up
    to case. When some record matches, the page shows a record of the
    document whose title matches, and it is that very record when no other
    matches; when no record matches, the state holds no movie and the
    error "Movie not found", and the page shows that message. Case is the
    runtime's: two titles match when their lower-case forms are equal. For
    titles below unit 128, which [toLowerCase] lowers unit by unit, that is
    to say that they are equal up to the case of the letters A-Z. *)
Theorem lookup_by_title titleParam decodedTitle data :
  JS.truthy titleParam = true →
  decodeURIComponent titleParam = inr decodedTitle →
  ((∃ m, m ∈ movies data ∧ eq_ignore_case (title m) decodedTitle) →
   ∃ m,
     MovieDetail.page decodeURIComponent (Some titleParam)
       (Responded true (inr data)) = MovieDetail.DetailView m ∧
     m ∈ movies data ∧ eq_ignore_case (title m) decodedTitle) ∧
  (∀ m,
     m ∈ movies data → eq_ignore_case (title m) decodedTitle →
     (∀ m', m' ∈ movies data → eq_ignore_case (title m') decodedTitle →
            m' = m) →
     MovieDetail.page decodeURIComponent (Some titleParam)
       (Responded true (inr data)) = MovieDetail.DetailView m) ∧
  ((∀ m, m ∈ movies data → ¬ eq_ignore_case (title m) decodedTitle) →
   MovieDetail.onTitle decodeURIComponent (Some titleParam)
     (Responded true (inr data)) MovieDetail.initialState =
     {| MovieDetail.movie := None; MovieDetail.loading := false;
        MovieDetail.error := Some "Movie not found" |} ∧
   MovieDetail.page decodeURIComponent (Some titleParam)
     (Responded true (inr data)) = MovieDetail.MessageView "Movie not found") ∧
  (lowers_ascii_text → ascii_text decodedTitle →
   ∀ m, ascii_text (title m) →
     eq_ignore_case (title m) decodedTitle ↔
     same_letters (title m) decodedTitle).
Proof.
  intros Htitle Hdecode.
  assert ((∃ m, m ∈ movies data ∧ eq_ignore_case (title m) decodedTitle) →
          ∃ m, MovieDetail.findMovie decodedTitle data = Some m ∧
               m ∈ movies data ∧ eq_ignore_case (title m) decodedTitle)
    as Hsome.
  { intros (m & Hm & Hmatch). unfold MovieDetail.findMovie.
    destruct (JS.Array_find _ (movies data)) as [m'|] eqn:E.
    - exists m'. split; [done|].
      apply Array_find_Some in E as (before & after & Hl & Hp & _).
      split; [|by apply sameTitle_true].
      rewrite Hl. apply elem_of_app. right. by left.
    - apply sameTitle_true in Hmatch.
      rewrite Array_find_None in E. rewrite (E m Hm) in Hmatch. done. }
  split_and!.
  - intros (m & Hfind & Hm & Hmatch)%Hsome. exists m.
    rewrite (page_found _ decodedTitle) by done. by rewrite Hfind.
  - intros m Hm Hmatch Honly.
    destruct Hsome as (m' & Hfind & Hm' & Hmatch'); [by exists m|].
    rewrite (page_found _ decodedTitle) by done. rewrite Hfind. f_equal. by apply Honly.
  - intros Hnone.
    assert (MovieDetail.findMovie decodedTitle data = None) as Hfind.
    { apply Array_find_None. intros m Hm.
      destruct (MovieDetail.sameTitle decodedTitle m) eqn:E; [|done].
      apply sameTitle_true in E. by destruct (Hnone m Hm). }
    split; [|by rewrite (page_found _ decodedTitle), Hfind].
    unfold MovieDetail.onTitle, MovieDetail.loadMovie, MovieDetail.tryLookup.
    simpl. rewrite Htitle. simpl. rewrite Htitle, Hdecode, Hfind. done.
  - intros Hlow Hdecoded m Hm. by apply eq_ignore_case_ascii.
Qed.

(** C10: the lookup returns the first matching record in document order:
    a record whose title matches, with no matching record before it, is
    the one shown, whatever follows it. A title matches when its
    lower-case form, as the runtime gives it, is that of the decoded
    title. *)
Theorem lookup_first_match titleParam decodedTitle n
    (before after : list Movie) m :
  JS.truthy titleParam = true →
  decodeURIComponent titleParam = inr decodedTitle →
  eq_ignore_case (title m) decodedTitle →
  (∀ m', m' ∈ before → ¬ eq_ignore_case (title m') decodedTitle) →
  MovieDetail.page decodeURIComponent (Some titleParam)
    (Responded true
       (inr {| total_movies := n; movies := before ++ m :: after |})) =
  MovieDetail.DetailView m.
Proof.
  intros Htitle Hdecode Hmatch Hbefore.
  rewrite (page_found _ decodedTitle) by done. unfold MovieDetail.findMovie. simpl.
  rewrite Array_find_first; [done| |by apply sameTitle_true].
  intros m' Hm'. destruct (MovieDetail.sameTitle decodedTitle m') eqn:E; [|done].
  apply sameTitle_true in E. by destruct (Hbefore m' Hm').
Qed.

End Lookup.

Section Example_lookup.

#[local] Existing Instance JS.ascii_runtime.

Lemma lookup_by_title_witness :
  MovieDetail.page JS.decodeURIComponent_ascii (Some "the%20thing")
    (Responded true (inr {| total_movies := 2;
                            movies := [heat1995; alien1979] |}))
  = MovieDetail.MessageView "Movie not found" ∧
  MovieDetail.page JS.decodeURIComponent_ascii (Some "HEAT")
    (Responded true (inr {| total_movies := 2;
                            movies := [heat1995; alien1979] |}))
  = MovieDetail.DetailView heat1995.
Proof.
  split.
  - apply (lookup_by_title JS.decodeURIComponent_ascii "the%20thing"
             "the thing" {| total_movies := 2; movies := [heat1995; alien1979] |});
      [reflexivity..|].
    intros m Hm Hmatch.
    repeat (apply elem_of_cons in Hm as [->|Hm]); [discriminate..|].
    by apply elem_of_nil in Hm.
  - destruct (lookup_by_title JS.decodeURIComponent_ascii "HEAT" "HEAT"
                {| total_movies := 2; movies := [heat1995; alien1979] |}
                eq_refl eq_refl) as (_ & Honly & _).
    apply Honly.
    + by left.
    + reflexivity.
    + intros m Hm Hmatch.
      repeat (apply elem_of_cons in Hm as [->|Hm]); [done|discriminate|].
      by apply elem_of_nil in Hm.
Defined.

Lemma lookup_first_match_witness :
  MovieDetail.page JS.decodeURIComponent_ascii (Some "alien")
    (Responded true (inr {| total_movies := 3;
                            movies := [heat1995; alien1979; alien2019] |}))
  = MovieDetail.DetailView alien1979.
Proof.
  apply (lookup_first_match JS.decodeURIComponent_ascii "alien" "alien" 3
           [heat1995] [alien2019] alien1979); [reflexivity..| |].
  - reflexivity.
  - intros m' ->%list_elem_of_singleton Hmatch. discriminate.
Defined.

End Example_lookup.

(** * Further properties *)

(** ** The pager *)

Section Pager.

Implicit Types (filtered : list Movie) (totalPages currentPage p : Z).

Lemma pageNum_shift totalPages currentPage i :
  Home.pageNum totalPages currentPage i =
  Home.pageNum totalPages currentPage 0 + i.
Proof. unfold Home.pageNum. repeat case_match; lia. Qed.

Lemma pageNumbers_seqZ totalPages currentPage :
  Home.pageNumbers totalPages currentPage =
  seqZ (Home.pageNum totalPages currentPage 0) (Z.min 5 totalPages).
Proof.
  unfold Home.pageNumbers, seqZ. apply list_fmap_ext. intros _ i _.
  rewrite pageNum_shift. lia.
Qed.

Lemma pageNum_first totalPages currentPage :
  1 ≤ currentPage ≤ totalPages →
  1 ≤ Home.pageNum totalPages currentPage 0 ∧
  Home.pageNum totalPages currentPage 0 + Z.min 5 totalPages - 1 ≤ totalPages ∧
  Home.pageNum totalPages currentPage 0 ≤ currentPage
    < Home.pageNum totalPages currentPage 0 + Z.min 5 totalPages.
Proof.
  intros Hcp. unfold Home.pageNum.
  repeat case_match;
    repeat match goal with
           | H : (_ <=? _) = true |- _ => apply Z.leb_le in H
           | H : (_ <=? _) = false |- _ => apply Z.leb_gt in H
           end; lia.
Qed.

(** X1: on a page within the page count the pager shows [min(5, count)]
    buttons with consecutive numbers, all of them pages that exist, and the
    current page is one of them; up to five pages it shows them all. *)
Theorem pageNumbers_window totalPages currentPage :
  1 ≤ currentPage ≤ totalPages →
  (∃ first,
     Home.pageNumbers totalPages currentPage = seqZ first (Z.min 5 totalPages) ∧
     1 ≤ first ∧ first + Z.min 5 totalPages - 1 ≤ totalPages) ∧
  length (Home.pageNumbers totalPages currentPage) = Z.to_nat (Z.min 5 totalPages) ∧
  currentPage ∈ Home.pageNumbers totalPages currentPage ∧
  (∀ n, n ∈ Home.pageNumbers totalPages currentPage → 1 ≤ n ≤ totalPages) ∧
  NoDup (Home.pageNumbers totalPages currentPage) ∧
  (totalPages ≤ 5 → Home.pageNumbers totalPages currentPage = seqZ 1 totalPages).
Proof.
  intros Hcp. destruct (pageNum_first totalPages currentPage Hcp) as (H1 & H2 & H3).
  rewrite pageNumbers_seqZ. split_and!.
  - by exists (Home.pageNum totalPages currentPage 0).
  - apply length_seqZ.
  - apply elem_of_seqZ. lia.
  - intros n Hn%elem_of_seqZ. lia.
  - apply NoDup_seqZ.
  - intros Hfew. rewrite Z.min_r by lia. f_equal.
    unfold Home.pageNum. by rewrite (proj2 (Z.leb_le _ _) Hfew).
Qed.

Lemma pageNumbers_window_witness :
  Home.pageNumbers 9 6 = [4; 5; 6; 7; 8] ∧ 6 ∈ Home.pageNumbers 9 6.
Proof.
  split; [reflexivity|].
  apply (pageNumbers_window 9 6). lia.
Defined.

Lemma totalPages_bounds filtered :
  20 * (Home.totalPages filtered - 1) < Z.of_nat (length filtered)
    ≤ 20 * Home.totalPages filtered.
Proof. apply (pageCount_bounds 20). lia. Qed.

Lemma currentMovies_length filtered p :
  1 ≤ p →
  Z.of_nat (length (Home.currentMovies filtered p)) =
  Z.max 0 (Z.min (p * 20) (Z.of_nat (length filtered)) - (p - 1) * 20).
Proof. intros Hp. by apply (pageSlice_length 20). Qed.

(** X2: every page from 1 to the page count shows something: the pages
    before the last hold exactly 20 movies and the last page holds what is
    left, between 1 and 20. *)
Theorem pages_in_range_filled filtered p :
  1 ≤ p ≤ Home.totalPages filtered →
  Home.currentMovies filtered p ≠ [] ∧
  (p < Home.totalPages filtered →
     length (Home.currentMovies filtered p) = 20%nat) ∧
  (p = Home.totalPages filtered →
     Z.of_nat (length (Home.currentMovies filtered p)) =
       Z.of_nat (length filtered) - 20 * (p - 1) ∧
     (1 ≤ length (Home.currentMovies filtered p) ≤ 20)%nat).
Proof.
  intros Hp. pose proof (totalPages_bounds filtered) as Hb.
  pose proof (currentMovies_length filtered p ltac:(lia)) as Hlen.
  split_and!.
  - intros Hnil. rewrite Hnil in Hlen. simpl in Hlen. lia.
  - intros Hlt. lia.
  - intros ->. lia.
Qed.

Lemma pages_in_range_filled_witness :
  length (Home.currentMovies movies45 2) = 20%nat ∧
  Home.currentMovies movies45 3 ≠ [].
Proof.
  assert (Home.totalPages movies45 = 3) as H3 by reflexivity.
  split.
  - apply (pages_in_range_filled movies45 2); rewrite H3; lia.
  - apply (pages_in_range_filled movies45 3). rewrite H3. lia.
Defined.

(** X3: on a page from 1 to the page count the line "Showing a-b of n"
    agrees with the cards: a is at least 1, b is at most n, the page shows
    b - a + 1 movies, and card [i] is movie number a + i of the filtered
    list. *)
Theorem showing_matches_cards filtered p :
  1 ≤ p ≤ Home.totalPages filtered →
  1 ≤ Home.showingFrom p ≤ Home.showingTo filtered p ∧
  Home.showingTo filtered p ≤ Z.of_nat (length filtered) ∧
  Z.of_nat (length (Home.currentMovies filtered p)) =
    Home.showingTo filtered p - Home.showingFrom p + 1 ∧
  (∀ i : nat,
     Home.currentMovies filtered p !! i =
     if decide (Home.showingFrom p + Z.of_nat i ≤ Home.showingTo filtered p)
     then filtered !! (Z.to_nat (Home.showingFrom p - 1) + i)%nat
     else None).
Proof.
  intros Hp. pose proof (totalPages_bounds filtered) as Hb.
  pose proof (currentMovies_length filtered p ltac:(lia)) as Hlen.
  unfold Home.showingFrom, Home.showingTo, Home.startIndex, Home.endIndex,
    Home.pageEnd, Home.pageStart, Home.MOVIES_PER_PAGE in *.
  split_and!; try lia.
  intros i. unfold Home.currentMovies.
  rewrite (pageSlice_lookup 20) by lia.
  replace ((p - 1) * 20 + 1 - 1) with ((p - 1) * 20) by lia.
  case_decide as H1; case_decide as H2; try done.
  - apply lookup_ge_None. lia.
  - lia.
Qed.

Lemma showing_matches_cards_witness :
  Home.showingFrom 3 = 41 ∧ Home.showingTo movies45 3 = 45 ∧
  length (Home.currentMovies movies45 3) = 5%nat.
Proof.
  split; [reflexivity|]. split; [reflexivity|].
  destruct (showing_matches_cards movies45 3) as (_ & _ & Hlen & _).
  - by vm_compute.
  - apply Nat2Z.inj. rewrite Hlen. reflexivity.
Defined.

End Pager.

(** ** The filter and the options together *)

Section FilterAlgebra.

Context `{runtime : !JS.Runtime}.

Implicit Types (data : MoviesData) (m : Movie) (s g y r : string).

Lemma filter_filter {A} (f1 f2 : A → bool) (l : list A) :
  List.filter f2 (List.filter f1 l) = List.filter (λ x, f1 x && f2 x) l.
Proof.
  induction l as [|x l IH]; simpl; [done|].
  destruct (f1 x); simpl; [destruct (f2 x)|]; congruence.
Qed.

Lemma filter_ext_bool {A} (f1 f2 : A → bool) (l : list A) :
  (∀ x, f1 x = f2 x) → List.filter f1 l = List.filter f2 l.
Proof.
  intros Heq. induction l as [|x l IH]; simpl; [done|].
  rewrite Heq, IH. done.
Qed.

Lemma filter_sublist_impl {A} (f1 f2 : A → bool) (l : list A) :
  (∀ x, f1 x = true → f2 x = true) →
  List.filter f1 l `sublist_of` List.filter f2 l.
Proof.
  intros Himp. induction l as [|x l IH]; simpl; [done|].
  destruct (f1 x) eqn:E1.
  - rewrite (Himp x E1). by constructor.
  - destruct (f2 x); [by constructor | done].
Qed.

Lemma filterOptions_elem data :
  (∀ g, g ∈ FilterOptions.genres (Home.filterOptions (Some data)) ↔
        ∃ m, m ∈ movies data ∧ g ∈ genres m) ∧
  (∀ y, y ∈ FilterOptions.years (Home.filterOptions (Some data)) ↔
        ∃ m, m ∈ movies data ∧ year m = y) ∧
  (∀ r, r ∈ FilterOptions.ratings (Home.filterOptions (Some data)) ↔
        ∃ m, m ∈ movies data ∧ rating m = r).
Proof.
  unfold Home.filterOptions. cbv zeta. simpl.
  set (empty := {| Home.allGenres := []; Home.allYears := [];
                   Home.allRatings := [] |}).
  destruct (collect_elem (movies data) empty) as (Eg & Ey & Er).
  split_and!; intros z; rewrite Array_sort_perm;
    [rewrite Eg | rewrite Ey | rewrite Er]; simpl; rewrite elem_of_nil; tauto.
Qed.

(** X4: no option is a dead end: choosing any offered genre, year or
    rating, with the other filters empty, finds at least one movie, and
    that movie has the chosen value. *)
Theorem options_are_live data :
  (∀ g, g ∈ FilterOptions.genres (Home.filterOptions (Some data)) →
        ∃ m, m ∈ Home.filteredMovies (Some data) "" g "" "" ∧ g ∈ genres m) ∧
  (∀ y, y ∈ FilterOptions.years (Home.filterOptions (Some data)) →
        ∃ m, m ∈ Home.filteredMovies (Some data) "" "" y "" ∧ year m = y) ∧
  (∀ r, r ∈ FilterOptions.ratings (Home.filterOptions (Some data)) →
        ∃ m, m ∈ Home.filteredMovies (Some data) "" "" "" r ∧ rating m = r).
Proof.
  destruct (filterOptions_elem data) as (Eg & Ey & Er).
  unfold Home.filteredMovies.
  split_and!; intros z (m & Hm & Hz)%Eg || intros z (m & Hm & Hz)%Ey
    || intros z (m & Hm & Hz)%Er;
    exists m; (split; [|done]);
    apply list_elem_of_In, filter_In; (split; [by apply list_elem_of_In|]);
    apply keeps_passes; unfold passes; split_and!; auto.
Qed.

(** X5: the case of the letters in the search box makes no difference: two
    search terms that are equal up to case give the same filtered list.
    Case is the runtime's: this holds of two terms in the box that have the
    same lower-case form; and, [toLowerCase] reading a capital A-Z as its
    small letter, of two terms that are equal up to the case of the
    letters A-Z. *)
Theorem search_term_case_irrelevant (moviesData : option MoviesData) s s' g y r :
  (s ≠ "" → s' ≠ "" → eq_ignore_case s s' →
   Home.filteredMovies moviesData s g y r =
   Home.filteredMovies moviesData s' g y r) ∧
  (reads_capitals_as_small → same_letters s s' →
   Home.filteredMovies moviesData s g y r =
   Home.filteredMovies moviesData s' g y r).
Proof.
  assert (eq_ignore_case s s' → (s = "" ↔ s' = "") →
          Home.filteredMovies moviesData s g y r =
          Home.filteredMovies moviesData s' g y r) as Hsame.
  { intros Hci Hempty. destruct moviesData as [data|]; [|done]. simpl.
    apply filter_ext_bool. intros m. unfold Home.keeps, Home.matchesSearch.
    rewrite Hci. do 3 f_equal.
    destruct (String.eqb_spec s ""), (String.eqb_spec s' ""); tauto. }
  split.
  - intros Hs Hs' Hci. apply Hsame; tauto.
  - intros Hcap Hletters. apply Hsame.
    + by apply same_letters_eq_ignore_case.
    + by destruct Hletters.
Qed.

Lemma keeps_split s g y r m :
  Home.keeps s g y r m =
  Home.keeps s "" "" "" m && Home.keeps "" g "" "" m &&
  Home.keeps "" "" y "" m && Home.keeps "" "" "" r m.
Proof.
  unfold Home.keeps.
  change (Home.matchesSearch "" m) with true.
  change (Home.matchesGenre "" m) with true.
  change (Home.matchesYear "" m) with true.
  change (Home.matchesRating "" m) with true.
  simpl. rewrite !andb_true_r. done.
Qed.

(** X6: the four filters act one by one and in any order: filtering by all
    criteria at once is filtering by the search term, then by the genre,
    then by the year, then by the rating, or the same steps in the reverse
    order; and filtering a filtered list again by the same criteria changes
    nothing. *)
Theorem filters_compose data s g y r :
  Home.filteredMovies (Some data) s g y r =
    Home.filteredMovies (Some (withMovies data
      (Home.filteredMovies (Some (withMovies data
        (Home.filteredMovies (Some (withMovies data
          (Home.filteredMovies (Some data) s "" "" "")))
          "" g "" "")))
        "" "" y "")))
      "" "" "" r ∧
  Home.filteredMovies (Some data) s g y r =
    Home.filteredMovies (Some (withMovies data
      (Home.filteredMovies (Some (withMovies data
        (Home.filteredMovies (Some (withMovies data
          (Home.filteredMovies (Some data) "" "" "" r)))
          "" "" y "")))
        "" g "" "")))
      s "" "" "" ∧
  Home.filteredMovies
    (Some (withMovies data (Home.filteredMovies (Some data) s g y r))) s g y r
    = Home.filteredMovies (Some data) s g y r.
Proof.
  unfold Home.filteredMovies, withMovies. simpl. rewrite !filter_filter.
  split_and!; apply filter_ext_bool; intros m.
  - rewrite (keeps_split s g y r).
    destruct (Home.keeps s "" "" "" m), (Home.keeps "" g "" "" m),
      (Home.keeps "" "" y "" m), (Home.keeps "" "" "" r m); done.
  - rewrite (keeps_split s g y r).
    destruct (Home.keeps s "" "" "" m), (Home.keeps "" g "" "" m),
      (Home.keeps "" "" y "" m), (Home.keeps "" "" "" r m); done.
  - by destruct (Home.keeps s g y r m).
Qed.

Lemma substring_of_trans s t u :
  substring_of s t → substring_of t u → substring_of s u.
Proof.
  intros (b1 & a1 & ->) (b2 & a2 & ->).
  exists (b2 +:+ b1), (a1 +:+ a2).
  clear. induction b2 as [|c b2 IH]; unfold_append.
  - induction b1 as [|c b1 IH]; unfold_append; [|by rewrite IH].
    induction s as [|c s IH]; unfold_append; [done|by rewrite IH].
  - by rewrite IH.
Qed.

Lemma substring_of_lower s t :
  substring_of s t →
  substring_of (JS.toLowerCase_ascii s) (JS.toLowerCase_ascii t).
Proof.
  intros (before & after & ->). rewrite !toLowerCase_append. by eexists _, _.
Qed.

Lemma substring_of_empty s : substring_of s "" → s = "".
Proof.
  intros (before & after & H). destruct before; unfold_append; [|done].
  by destruct s.
Qed.

(** X7: relaxing the criteria never loses a result: when each of the
    genre, year and rating filters is kept or cleared, and the search term
    is emptied or replaced by a case-insensitive substring of itself, the
    old results are a subsequence of the new ones. For search terms below
    unit 128, which [toLowerCase] lowers unit by unit, every part of the
    term is such a substring: typing further in the search box only
    narrows the list. *)
Theorem relaxing_keeps_results (moviesData : option MoviesData)
    s g y r s' g' y' r' :
  (g = g' ∨ g = "") → (y = y' ∨ y = "") → (r = r' ∨ r = "") →
  (s = "" ∨ (s' ≠ "" ∧ ci_substring s s') →
   Home.filteredMovies moviesData s' g' y' r'
     `sublist_of` Home.filteredMovies moviesData s g y r) ∧
  (lowers_ascii_text → ascii_text s → ascii_text s' → substring_of s s' →
   Home.filteredMovies moviesData s' g' y' r'
     `sublist_of` Home.filteredMovies moviesData s g y r).
Proof.
  intros Hg Hy Hr.
  assert (s = "" ∨ (s' ≠ "" ∧ ci_substring s s') →
          Home.filteredMovies moviesData s' g' y' r'
            `sublist_of` Home.filteredMovies moviesData s g y r) as Hgeneral.
  { intros Hs. destruct moviesData as [data|]; [|done]. simpl.
    apply filter_sublist_impl. intros m. unfold Home.keeps.
    rewrite !andb_true_iff. intros [[[Hms Hmg] Hmy] Hmr]. split_and!.
    - unfold Home.matchesSearch in *. apply orb_true_iff.
      destruct Hs as [->|[Hne Hci]]; [by left|right].
      apply orb_true_iff in Hms as [Hempty%String.eqb_eq|Hinc]; [done|].
      apply String_includes_true. apply String_includes_true in Hinc.
      by eapply substring_of_trans.
    - by destruct Hg as [->| ->].
    - by destruct Hy as [->| ->].
    - by destruct Hr as [->| ->]. }
  split; [done|].
  intros Hlow Hascii Hascii' Hpart. apply Hgeneral.
  destruct (String.eqb_spec s "") as [->|Hne]; [by left|right]. split.
  - intros ->. by apply substring_of_empty in Hpart.
  - unfold ci_substring. rewrite (Hlow s), (Hlow s') by done.
    by apply substring_of_lower.
Qed.

End FilterAlgebra.

Section Example_filter.

#[local] Existing Instance JS.ascii_runtime.

Lemma search_term_case_irrelevant_witness :
  Home.filteredMovies (Some catalog4) "ALI" "" "" "" =
  Home.filteredMovies (Some catalog4) "ali" "" "" "" ∧
  title <$> Home.filteredMovies (Some catalog4) "ali" "" "" ""
    = ["Alien"; "Coraline"].
Proof.
  split; [|reflexivity].
  apply (search_term_case_irrelevant (Some catalog4) "ALI" "ali").
  - intros s. apply toLowerCase_idem.
  - by apply toLowerCase_same.
Defined.

Lemma relaxing_keeps_results_witness :
  Home.filteredMovies (Some catalog4) "Cor" "Drama" "2009" "PG"
    `sublist_of` Home.filteredMovies (Some catalog4) "or" "" "2009" "".
Proof.
  apply (relaxing_keeps_results (Some catalog4) "or" "" "2009" ""
           "Cor" "Drama" "2009" "PG"); auto.
  - by intros s _.
  - by vm_compute.
  - by vm_compute.
  - by exists "C", "".
Defined.

End Example_filter.

(** ** The states the page reaches *)

Section Reachable.

Context `{runtime : !JS.Runtime}.

Implicit Types (prev seen st : Home.State) (ev : Home.Event).

Ltac effect_cases :=
  unfold Home.runEffects; cbv zeta;
  repeat case_bool_decide; simpl orb; cbv iota.

Lemma runEffects_load prev seen :
  Home.loading (Home.runEffects prev seen) = Home.loading seen ∧
  Home.error (Home.runEffects prev seen) = Home.error seen.
Proof. by effect_cases. Qed.

Lemma urlOf_ext st st' :
  Home.criteria st = Home.criteria st' → urlOf st = urlOf st'.
Proof.
  unfold urlOf, Home.updateUrl, Home.criteria. intros [= -> -> -> ->]. done.
Qed.

Lemma filteredOf_ext st st' :
  Home.moviesData st = Home.moviesData st' →
  Home.criteria st = Home.criteria st' → filteredOf st = filteredOf st'.
Proof.
  unfold filteredOf, Home.criteria. intros -> [= -> -> -> ->]. done.
Qed.

Lemma runEffects_searchParams_new prev seen :
  Home.searchParams prev = Home.searchParams seen →
  Home.searchParams (Home.runEffects prev seen) =
  if decide (Home.criteria prev = Home.criteria seen)
  then Home.searchParams seen else urlOf seen.
Proof. intros Hp. effect_cases; by case_decide. Qed.

(** What a transition does to each part of the state. *)
Lemma step_parts st ev :
  Home.moviesData (Home.step st ev) = Home.moviesData (Home.handle ev st) ∧
  Home.loading (Home.step st ev) = Home.loading (Home.handle ev st) ∧
  Home.error (Home.step st ev) = Home.error (Home.handle ev st) ∧
  Home.criteria (Home.step st ev) = Home.criteria (Home.handle ev st) ∧
  Home.currentPage (Home.step st ev) =
    (if decide (Home.criteria st = Home.criteria (Home.handle ev st))
     then Home.currentPage (Home.handle ev st) else 1) ∧
  Home.searchParams (Home.step st ev) =
    (if decide (Home.criteria st = Home.criteria (Home.handle ev st))
     then Home.searchParams st else urlOf (Home.handle ev st)).
Proof.
  rewrite step_runEffects.
  pose proof (handle_searchParams ev st) as Hp.
  destruct (runEffects_load st (Home.handle ev st)) as [Hl He].
  split_and!; auto using runEffects_moviesData, runEffects_criteria,
    runEffects_currentPage.
  rewrite runEffects_searchParams_new by done. case_decide; congruence.
Qed.

Lemma criteriaOf_urlOf st : criteriaOf (urlOf st) = Home.criteria st.
Proof.
  unfold urlOf, criteriaOf, Home.updateUrl, Home.criteria.
  destruct st as [md cp ld er sp q g y r]. simpl.
  destruct (JS.truthy q) eqn:Eq; destruct (JS.truthy g) eqn:Eg;
    destruct (JS.truthy y) eqn:Ey; destruct (JS.truthy r) eqn:Er;
    simpl;
    rewrite ?Eq, ?Eg, ?Ey, ?Er;
    try apply truthy_false in Eq; try apply truthy_false in Eg;
    try apply truthy_false in Ey; try apply truthy_false in Er;
    subst; reflexivity.
Qed.

(** Mounting is the first round of effects on the first render. *)
Lemma mount_mountEffects params :
  Home.mount params = Home.mountEffects (Home.initialState params).
Proof.
  unfold Home.mount. cbv zeta. apply settle_fix.
  set (first := Home.initialState params).
  assert (Home.criteria (Home.mountEffects first) = Home.criteria first)
    as Hc by reflexivity.
  assert (Home.searchParams (Home.mountEffects first) =
          urlOf (Home.mountEffects first)) as Hu by reflexivity.
  remember (Home.mountEffects first) as s1 eqn:E1. clear E1.
  effect_cases; try done; try congruence.
  rewrite updateUrl_same by done. by apply readUrl_updateUrl.
Qed.

Lemma mount_parts params :
  Home.moviesData (Home.mount params) = None ∧
  Home.loading (Home.mount params) = true ∧
  Home.error (Home.mount params) = None ∧
  Home.currentPage (Home.mount params) = 1 ∧
  Home.criteria (Home.mount params) = criteriaOf params ∧
  Home.searchParams (Home.mount params) = urlOf (Home.mount params).
Proof. rewrite mount_mountEffects. by split_and!. Qed.

(** The grid is shown exactly when the request has ended, no error message
    is held and the document is there. *)
Lemma render_grid_inv st grid :
  Home.render st = Home.GridView grid →
  Home.loading st = false ∧ is_Some (Home.moviesData st) ∧
  JS.truthy (JS.orElse (Home.error st) "") = false ∧
  Home.matching grid = filteredOf st ∧
  Home.pages grid = Home.totalPages (filteredOf st) ∧
  Home.shown grid = Home.currentMovies (filteredOf st) (Home.currentPage st) ∧
  Home.noMoviesFound grid = bool_decide (length (filteredOf st) = 0%nat) ∧
  Home.pager grid = (1 <? Home.totalPages (filteredOf st)).
Proof.
  unfold Home.render, filteredOf. destruct (Home.loading st); [discriminate|].
  destruct (JS.truthy _); [discriminate|].
  destruct (Home.moviesData st); [|discriminate].
  intros [= <-]. by split_and!.
Qed.

Lemma pagerClicks_range totalPages currentPage p :
  1 ≤ currentPage ≤ totalPages →
  p ∈ Home.pagerClicks totalPages currentPage → 1 ≤ p ≤ totalPages.
Proof.
  intros Hcp. unfold Home.pagerClicks.
  destruct (pageNum_first totalPages currentPage Hcp) as (H1 & H2 & H3).
  rewrite !elem_of_app, pageNumbers_seqZ, elem_of_seqZ.
  intros [Hprev|[Hnum|Hnext]].
  - destruct (Z.eqb_spec currentPage 1); [by apply elem_of_nil in Hprev|].
    apply list_elem_of_singleton in Hprev. lia.
  - lia.
  - destruct (Z.eqb_spec currentPage totalPages);
      [by apply elem_of_nil in Hnext|].
    apply list_elem_of_singleton in Hnext. lia.
Qed.

Lemma offers_inv st ev :
  Home.offers st ev = true →
  match ev with
  | Home.FetchSettled _ => Home.loading st = true
  | Home.PageClick p =>
      Home.loading st = false ∧ 1 < Home.totalPages (filteredOf st) ∧
      p ∈ Home.pagerClicks (Home.totalPages (filteredOf st)) (Home.currentPage st)
  | _ => Home.loading st = false
  end.
Proof.
  unfold Home.offers. destruct ev; try done;
    destruct (Home.render st) as [| | |grid] eqn:E; try done;
    apply render_grid_inv in E as (Hl & _ & _ & _ & Hpages & _ & _ & Hpager);
    try done.
  rewrite !andb_true_iff, Hpager, Hpages, bool_decide_eq_true.
  intros [[_ H1%Z.ltb_lt] Hp]. done.
Qed.

Lemma reachable_inv params st :
  reachable params st →
  page_in_range st ∧ Home.searchParams st = urlOf st ∧ load_settled st.
Proof.
  induction 1 as [|st ev Hreach (Hpage & Hurl & Hload) Hoffer].
  - destruct (mount_parts params) as (Hd & Hl & He & Hp & Hc & Hu).
    unfold page_in_range, load_settled. rewrite Hl, Hp. split_and!; auto. lia.
  - apply offers_inv in Hoffer.
    destruct (step_parts st ev) as (Sd & Sl & Se & Sc & Sp & Su).
    assert (Home.searchParams (Home.step st ev) = urlOf (Home.step st ev))
      as Hurl'.
    { rewrite Su. case_decide as Hsame.
      - rewrite Hurl. apply urlOf_ext. congruence.
      - by apply urlOf_ext. }
    split_and!; [|done|].
    + unfold page_in_range in *. rewrite Sp, Sl. destruct Hpage as [H1 Hle].
      destruct ev; simpl in *;
        try (case_decide as Hsame; [|split; [lia|by left]];
             split; [done|]; destruct Hle as [?|[? Hle]]; [by left|right];
             split; [done|];
             rewrite (filteredOf_ext (Home.step st _) st); done || congruence).
      * case_decide; split; (lia || by left).
      * destruct Hoffer as (Hl & Htp & Hp).
        assert (1 ≤ Home.currentPage st ≤ Home.totalPages (filteredOf st))
          as Hcp by (destruct Hle as [->|[_ ?]]; lia).
        apply pagerClicks_range in Hp; [|done].
        rewrite decide_True by done. split; [lia|right]. split; [done|].
        rewrite (filteredOf_ext (Home.step st (Home.PageClick page)) st);
          [lia|done..].
      * rewrite decide_True
          by (unfold Home.loadMovies; by destruct (fetchMovies outcome)).
        assert (Home.currentPage st = 1) as Hone
          by (destruct Hle as [?|[? _]]; congruence).
        unfold Home.loadMovies. destruct (fetchMovies outcome); simpl;
          (split; [lia|by left]).
    + unfold load_settled in *. rewrite Sd, Sl, Se.
      destruct ev; simpl in *; try done.
      rewrite Hoffer in Hload. destruct Hload as [Hd He].
      unfold Home.loadMovies. destruct (fetchMovies outcome); simpl.
      * right. split; [done | by eexists].
      * left. split; [by eexists | done].
Qed.

(** X8: the pager never leaves the pages that exist. In every state the
    page reaches the page number is at least 1, and it is 1 or at most the
    page count; when the grid is shown and movies are found, the current
    page is between 1 and the page count and shows between 1 and 20
    movies. *)
Theorem pager_stays_in_range params st :
  reachable params st →
  1 ≤ Home.currentPage st ∧
  (Home.currentPage st = 1 ∨
   Home.currentPage st ≤ Home.totalPages (filteredOf st)) ∧
  (∀ grid,
     Home.render st = Home.GridView grid → Home.matching grid ≠ [] →
     1 ≤ Home.currentPage st ≤ Home.pages grid ∧
     Home.shown grid ≠ [] ∧ (length (Home.shown grid) ≤ 20)%nat).
Proof.
  intros ([H1 Hle] & _ & _)%reachable_inv. split_and!; [done|tauto|].
  intros grid (_ & _ & _ & Hm & Hpages & Hshown & _)%render_grid_inv Hfound.
  rewrite Hm in Hfound. rewrite Hpages, Hshown.
  pose proof (totalPages_bounds (filteredOf st)) as Hb.
  assert (0 < Z.of_nat (length (filteredOf st)))
    by (destruct (filteredOf st); [done|simpl; lia]).
  assert (Home.currentPage st ≤ Home.totalPages (filteredOf st))
    by (destruct Hle as [->|[_ ?]]; lia).
  pose proof (currentMovies_length (filteredOf st) (Home.currentPage st) H1)
    as Hlen.
  split_and!; [done..| |lia].
  intros Hnil. rewrite Hnil in Hlen. simpl in Hlen. lia.
Qed.

(** The query string written for a state holds, in the order search,
    genre, year, rating, the filter fields that are not empty. *)
Lemma urlOf_active st :
  urlOf st =
  List.filter (λ kv, JS.truthy kv.2)
    [("search", Home.searchTerm st); ("genre", Home.selectedGenre st);
     ("year", Home.selectedYear st); ("rating", Home.selectedRating st)].
Proof.
  unfold urlOf, Home.updateUrl. destruct st as [md cp ld er sp q g y r]. simpl.
  by destruct (JS.truthy q), (JS.truthy g), (JS.truthy y), (JS.truthy r).
Qed.

(** X9: the address always mirrors the filters. In every state the page
    reaches the query string holds exactly the filter fields that are not
    empty, under the names search, genre, year and rating in that order;
    reading it back gives the filter fields, so a page mounted on that
    query string starts with the same filters, on page 1, and keeps the
    query string as it is. *)
Theorem url_mirrors_filters params st :
  reachable params st →
  Home.searchParams st =
    List.filter (λ kv, JS.truthy kv.2)
      [("search", Home.searchTerm st); ("genre", Home.selectedGenre st);
       ("year", Home.selectedYear st); ("rating", Home.selectedRating st)] ∧
  criteriaOf (Home.searchParams st) = Home.criteria st ∧
  Home.criteria (Home.mount (Home.searchParams st)) = Home.criteria st ∧
  Home.currentPage (Home.mount (Home.searchParams st)) = 1 ∧
  Home.searchParams (Home.mount (Home.searchParams st)) = Home.searchParams st.
Proof.
  intros (_ & Hurl & _)%reachable_inv.
  destruct (mount_parts (Home.searchParams st)) as (_ & _ & _ & Hp & Hc & Hu).
  assert (criteriaOf (Home.searchParams st) = Home.criteria st) as Hback
    by (rewrite Hurl; apply criteriaOf_urlOf).
  split_and!.
  - rewrite Hurl at 1. apply urlOf_active.
  - done.
  - congruence.
  - done.
  - rewrite Hu, Hurl at 1. rewrite Hurl at 1. apply urlOf_ext. congruence.
Qed.

(** X10: what the first display is. When the request ends well the grid
    is shown with the options of the document, the document filtered by
    the filter fields of the query string the page was opened on, and page
    1 of that list. When it fails no document is kept and the error view
    shows the message; a failure whose message is empty leaves the page
    blank. *)
Theorem first_display params outcome :
  (∀ data,
     fetchMovies outcome = inr data →
     ∃ grid,
       Home.render (Home.step (Home.mount params) (Home.FetchSettled outcome))
         = Home.GridView grid ∧
       Home.options grid = Home.filterOptions (Some data) ∧
       Home.matching grid =
         Home.filteredMovies (Some data) (criteriaOf params).1.1.1
           (criteriaOf params).1.1.2 (criteriaOf params).1.2
           (criteriaOf params).2 ∧
       Home.shown grid = Home.currentMovies (Home.matching grid) 1) ∧
  (∀ err,
     fetchMovies outcome = inl err →
     Home.moviesData (Home.step (Home.mount params) (Home.FetchSettled outcome))
       = None ∧
     Home.render (Home.step (Home.mount params) (Home.FetchSettled outcome))
       = if JS.truthy (messageOf err) then Home.ErrorView (messageOf err)
         else Home.Blank).
Proof.
  destruct (mount_parts params) as (Hd & Hl & He & Hp & Hc & Hu).
  remember (Home.mount params) as m0 eqn:Em. clear Em.
  destruct (step_parts m0 (Home.FetchSettled outcome))
    as (Sd & Sl & Se & Sc & Sp & _).
  remember (Home.step m0 (Home.FetchSettled outcome)) as st eqn:Est. clear Est.
  assert (Home.criteria (Home.handle (Home.FetchSettled outcome) m0)
          = Home.criteria m0) as Hsame
    by (simpl; unfold Home.loadMovies; by destruct (fetchMovies outcome)).
  rewrite Hsame in Sc. rewrite decide_True in Sp by done.
  simpl in Sd, Sl, Se, Sp. unfold Home.loadMovies in Sd, Sl, Se, Sp.
  assert (Home.criteria st = criteriaOf params) as Hcrit by congruence.
  unfold Home.criteria, criteriaOf in Hcrit. injection Hcrit as Hq Hg Hy Hr.
  split.
  - intros data Hfetch. rewrite Hfetch in Sd, Se, Sp.
    simpl in Sd, Sl, Se, Sp.
    unfold Home.render. rewrite Sl, Se, He, Sd, Sp, Hp, Hq, Hg, Hy, Hr.
    eexists. split; [reflexivity|]. by split_and!.
  - intros err Hfetch. rewrite Hfetch in Sd, Se, Sp.
    simpl in Sd, Sl, Se, Sp. split; [congruence|].
    unfold Home.render. rewrite Sl, Se, Sd, Hd.
    change (JS.orElse (Some (messageOf err)) "")
      with (if JS.truthy (messageOf err) then messageOf err else "").
    destruct (JS.truthy (messageOf err)) eqn:E; rewrite ?E; reflexivity.
Qed.

(** X11: the clear button, which is there when some filter is set, empties
    all four filters and the query string, goes to page 1, shows the whole
    document and takes itself away. *)
Theorem clear_shows_everything params st :
  reachable params st → Home.offers st Home.ClearFilters = true →
  Home.criteria (Home.step st Home.ClearFilters) = ("", "", "", "") ∧
  Home.searchParams (Home.step st Home.ClearFilters) = [] ∧
  Home.currentPage (Home.step st Home.ClearFilters) = 1 ∧
  (∃ data, Home.moviesData st = Some data ∧
           filteredOf (Home.step st Home.ClearFilters) = movies data) ∧
  Home.offers (Home.step st Home.ClearFilters) Home.ClearFilters = false.
Proof.
  intros Hreach Hoffer.
  assert (reachable params (Home.step st Home.ClearFilters)) as Hreach'
    by by apply reachable_step.
  destruct (reachable_inv _ _ Hreach') as (_ & Hurl & _).
  destruct (step_parts st Home.ClearFilters) as (Sd & Sl & Se & Sc & Sp & _).
  simpl in *.
  assert (Home.criteria (Home.step st Home.ClearFilters) = ("", "", "", ""))
    as Hcrit by done.
  unfold Home.offers in Hoffer.
  destruct (Home.render st) as [| | |grid] eqn:Hgrid; try done.
  apply render_grid_inv in Hgrid as (_ & [data Hdata] & _).
  unfold Home.criteria in Hcrit. injection Hcrit as Hq Hg Hy Hr.
  split_and!.
  - unfold Home.criteria. congruence.
  - rewrite Hurl, urlOf_active, Hq, Hg, Hy, Hr. done.
  - rewrite Sp. by case_decide.
  - exists data. split; [done|]. unfold filteredOf.
    rewrite Sd, Hdata, Hq, Hg, Hy, Hr. simpl. by apply filter_all.
  - unfold Home.offers.
    destruct (Home.render (Home.step st Home.ClearFilters)); try done.
    unfold Home.hasActiveFilters. by rewrite Hq, Hg, Hy, Hr.
Qed.

Lemma slice_sublist {A} (l : list A) (start end_ : Z) :
  JS.Array_slice l start end_ `sublist_of` l.
Proof.
  unfold JS.Array_slice. cbv zeta.
  etrans; [apply sublist_take | apply sublist_drop].
Qed.

(** X12: the signals of the grid follow the filtered list: "no movies
    found" is shown exactly when the list is empty, which is exactly when
    the page count is 0; the pager is shown exactly when the list has more
    than 20 movies; and the cards are always a subsequence of the list. *)
Theorem grid_signals st grid :
  Home.render st = Home.GridView grid →
  (Home.noMoviesFound grid = true ↔ Home.matching grid = []) ∧
  (Home.matching grid = [] ↔ Home.pages grid = 0) ∧
  (Home.pager grid = true ↔ (20 < length (Home.matching grid))%nat) ∧
  Home.shown grid `sublist_of` Home.matching grid.
Proof.
  intros (_ & _ & _ & Hm & Hpages & Hshown & Hnone & Hpager)%render_grid_inv.
  rewrite Hm, Hpages, Hshown, Hnone, Hpager.
  pose proof (totalPages_bounds (filteredOf st)) as Hb.
  split_and!.
  - rewrite bool_decide_eq_true. by destruct (filteredOf st).
  - split; [intros Hnil; rewrite Hnil in *; simpl in *; lia|].
    intros H0. destruct (filteredOf st); [done|]. simpl in *. lia.
  - rewrite Z.ltb_lt. lia.
  - apply slice_sublist.
Qed.

(** X13: a load ends in exactly one way. In every state the page reaches:
    the grid is shown only with a document and no error; the error view
    shows the message that is held, and then there is no document; the
    page is blank only after a failure with an empty message; and while the
    request is pending there is neither a document nor an error. *)
Theorem load_ends_one_way params st :
  reachable params st →
  (∀ grid, Home.render st = Home.GridView grid →
           is_Some (Home.moviesData st) ∧ Home.error st = None) ∧
  (∀ message, Home.render st = Home.ErrorView message →
              Home.moviesData st = None ∧ Home.error st = Some message ∧
              message ≠ "") ∧
  (Home.render st = Home.Blank →
   Home.moviesData st = None ∧ Home.error st = Some "") ∧
  (Home.render st = Home.LoadingView →
   Home.moviesData st = None ∧ Home.error st = None).
Proof.
  intros (_ & _ & Hload)%reachable_inv. unfold load_settled in Hload.
  unfold Home.render.
  destruct (Home.loading st).
  { by split_and!. }
  destruct Hload as [[[data Hd] He]|[Hd [message He]]]; rewrite Hd, He; simpl.
  - split_and!; try done.
  - destruct (JS.truthy message) eqn:E; rewrite ?E; split_and!; try done.
    + intros ? [= <-]. split_and!; [done..|]. by intros ->.
    + intros _. apply truthy_false in E as ->. done.
Qed.

End Reachable.

Section Example_reachable.

#[local] Existing Instance JS.ascii_runtime.

Lemma paging_reachable : reachable [] paging.
Proof.
  apply reachable_step; [apply reachable_step; [apply reachable_mount|]|];
    by vm_compute.
Qed.

Lemma pager_stays_in_range_witness :
  Home.currentPage paging = 2 ∧
  1 ≤ Home.currentPage (Home.step paging (Home.PageClick 3)) ∧
  (Home.currentPage (Home.step paging (Home.PageClick 3)) = 1 ∨
   Home.currentPage (Home.step paging (Home.PageClick 3))
     ≤ Home.totalPages (filteredOf (Home.step paging (Home.PageClick 3)))).
Proof.
  split; [reflexivity|].
  assert (reachable [] (Home.step paging (Home.PageClick 3))) as Hreach
    by (apply reachable_step; [apply paging_reachable | by vm_compute]).
  destruct (pager_stays_in_range [] _ Hreach) as (H1 & H2 & _). by split.
Defined.

Lemma url_mirrors_filters_witness :
  Home.searchParams
    (Home.step (Home.step paging (Home.YearSelect "2000")) (Home.SearchInput "4"))
    = [("search", "4"); ("year", "2000")] ∧
  Home.criteria
    (Home.mount
       (Home.searchParams
          (Home.step (Home.step paging (Home.YearSelect "2000"))
             (Home.SearchInput "4"))))
    = ("4", "", "2000", "").
Proof.
  split; [reflexivity|].
  assert (reachable []
            (Home.step (Home.step paging (Home.YearSelect "2000"))
               (Home.SearchInput "4"))) as Hreach.
  { apply reachable_step; [apply reachable_step; [apply paging_reachable|]|];
      by vm_compute. }
  destruct (url_mirrors_filters [] _ Hreach) as (_ & _ & Hc & _).
  rewrite Hc. reflexivity.
Defined.

Lemma first_display_witness :
  Home.render
    (Home.step (Home.mount [("genre", "Horror")])
       (Home.FetchSettled (Responded false (inl NotAnError))))
  = Home.ErrorView "Failed to load movies" ∧
  Home.render
    (Home.step (Home.mount [("genre", "Horror")])
       (Home.FetchSettled (Rejected (Error ""))))
  = Home.Blank.
Proof.
  split.
  - destruct (first_display [("genre", "Horror")]
                (Responded false (inl NotAnError))) as [_ Hfail].
    exact (proj2 (Hfail (Error "Failed to load movies") eq_refl)).
  - destruct (first_display [("genre", "Horror")] (Rejected (Error "")))
      as [_ Hfail].
    exact (proj2 (Hfail (Error "") eq_refl)).
Defined.

Lemma clear_shows_everything_witness :
  Home.criteria (Home.step (Home.step paging (Home.SearchInput "4"))
                   Home.ClearFilters) = ("", "", "", "") ∧
  Home.searchParams (Home.step (Home.step paging (Home.SearchInput "4"))
                       Home.ClearFilters) = [].
Proof.
  assert (reachable [] (Home.step paging (Home.SearchInput "4"))) as Hreach
    by (apply reachable_step; [apply paging_reachable | by vm_compute]).
  destruct (clear_shows_everything [] _ Hreach) as (Hc & Hp & _);
    [by vm_compute|]. by split.
Defined.

Lemma grid_signals_witness :
  ∃ grid,
    Home.render paging = Home.GridView grid ∧
    Home.pager grid = true ∧ Home.noMoviesFound grid = false ∧
    (20 < length (Home.matching grid))%nat.
Proof.
  assert (∃ grid, Home.render paging = Home.GridView grid) as [grid Hgrid]
    by (eexists; vm_compute; reflexivity).
  exists grid. destruct (grid_signals paging grid Hgrid) as (Hnone & _ & Hpager & _).
  assert (Home.pager grid = true) as Hp.
  { apply Hpager. apply render_grid_inv in Hgrid as (_ & _ & _ & -> & _).
    vm_compute. lia. }
  split_and!; [done..| |by apply Hpager].
  destruct (Home.noMoviesFound grid) eqn:E; [|done].
  destruct Hnone as [Hnil _]. specialize (Hnil eq_refl).
  apply Hpager in Hp. rewrite Hnil in Hp. simpl in Hp. lia.
Defined.

Lemma load_ends_one_way_witness :
  is_Some (Home.moviesData paging) ∧ Home.error paging = None.
Proof.
  assert (∃ grid, Home.render paging = Home.GridView grid) as [grid Hgrid]
    by (eexists; vm_compute; reflexivity).
  destruct (load_ends_one_way [] paging paging_reachable) as (Hg & _).
  exact (Hg grid Hgrid).
Defined.

End Example_reachable.

(** ** The detail page *)

Section DetailPage.

Variable decodeURIComponent : string → Thrown + string.

Context `{runtime : !JS.Runtime}.

Implicit Types (titleParam : option string) (outcome : FetchOutcome).

Lemma onTitle_without titleParam outcome :
  JS.truthy (JS.orElse titleParam "") = false →
  MovieDetail.onTitle decodeURIComponent titleParam outcome
    MovieDetail.initialState = MovieDetail.initialState.
Proof. intros H. unfold MovieDetail.onTitle. by rewrite H. Qed.

Lemma onTitle_with titleParam outcome :
  JS.truthy (JS.orElse titleParam "") = true →
  MovieDetail.onTitle decodeURIComponent titleParam outcome
    MovieDetail.initialState =
  match MovieDetail.tryLookup decodeURIComponent titleParam outcome with
  | inr updates =>
      MovieDetail.setLoading false
        (updates (MovieDetail.setLoading true MovieDetail.initialState))
  | inl err =>
      {| MovieDetail.movie := None; MovieDetail.loading := false;
         MovieDetail.error := Some (messageOf err) |}
  end.
Proof.
  intros H. unfold MovieDetail.onTitle, MovieDetail.loadMovie. rewrite H.
  by destruct (MovieDetail.tryLookup _ _ _).
Qed.

(** X14: the details shown are always those of a record that was looked
    up: when the page shows a movie, the title parameter is not empty, the
    document has arrived, the parameter decodes, and the movie is the first
    record of the document whose title equals the decoded title up to
    case, that is, has the same lower-case form as the runtime gives it. *)
Theorem detail_shows_looked_up_record titleParam outcome m :
  MovieDetail.page decodeURIComponent titleParam outcome
    = MovieDetail.DetailView m →
  ∃ t data decodedTitle before after,
    titleParam = Some t ∧ t ≠ "" ∧
    fetchMovies outcome = inr data ∧
    decodeURIComponent t = inr decodedTitle ∧
    movies data = before ++ m :: after ∧
    eq_ignore_case (title m) decodedTitle ∧
    ∀ m', m' ∈ before → ¬ eq_ignore_case (title m') decodedTitle.
Proof.
  unfold MovieDetail.page.
  destruct (JS.truthy (JS.orElse titleParam "")) eqn:Ht.
  2: { by rewrite onTitle_without. }
  rewrite onTitle_with by done. unfold MovieDetail.tryLookup.
  destruct titleParam as [t|]; [|done]. simpl in Ht.
  assert (JS.orElse (Some t) "" = t) as Ht'
    by (simpl; destruct (JS.truthy t) eqn:E; [done|by apply truthy_false in E]).
  assert (t ≠ "") as Hne.
  { intros ->. simpl in Ht. discriminate. }
  rewrite Ht'.
  destruct (fetchMovies outcome) as [err|data] eqn:Hfetch.
  { simpl. by destruct (JS.truthy (messageOf err)). }
  destruct (decodeURIComponent t) as [err|decodedTitle] eqn:Hdec.
  { simpl. by destruct (JS.truthy (messageOf err)). }
  destruct (MovieDetail.findMovie decodedTitle data) as [found|] eqn:Hfind;
    [|done].
  simpl. intros [= ->].
  apply Array_find_Some in Hfind as (before & after & Hl & Hp & Hbefore).
  exists t, data, decodedTitle, before, after. split_and!; try done.
  - by apply sameTitle_true.
  - intros m' Hm' Hmatch%sameTitle_true. rewrite (Hbefore m' Hm') in Hmatch.
    done.
Qed.

(** X15: the spinner stays exactly when there is no title: with a missing
    or empty title parameter the load never starts and the page keeps
    showing the spinner whatever the request does; with a title the load
    always ends, whether the request fails, the title does not decode, or
    the lookup finds something or nothing. *)
Theorem detail_spinner_iff_no_title titleParam outcome :
  MovieDetail.page decodeURIComponent titleParam outcome
    = MovieDetail.LoadingView ↔
  titleParam = None ∨ titleParam = Some "".
Proof.
  unfold MovieDetail.page.
  destruct (JS.truthy (JS.orElse titleParam "")) eqn:Ht.
  - rewrite onTitle_with by done. split.
    + destruct (MovieDetail.tryLookup _ _ _) as [err|updates] eqn:Htry.
      * simpl. by destruct (JS.truthy (messageOf err)).
      * unfold MovieDetail.tryLookup in Htry.
        destruct (fetchMovies outcome); [done|].
        destruct (decodeURIComponent _); [done|].
        by destruct (MovieDetail.findMovie _ _); injection Htry as <-.
    + by intros [-> | ->].
  - rewrite onTitle_without by done.
    assert (titleParam = None ∨ titleParam = Some "") as Hno.
    { destruct titleParam as [t|].
      - right. simpl in Ht. destruct (JS.truthy t) eqn:E.
        + rewrite ?E in Ht. simpl in Ht. rewrite ?E in Ht. congruence.
        + by apply truthy_false in E as ->.
      - by left. }
    split; intros; [exact Hno | reflexivity].
Qed.

(** X16: what a failed lookup shows. With a title, when the request fails
    or the title does not decode, no movie is shown: the page shows the
    message of the failure, or "Movie not found" when that message is
    empty. A title with a malformed escape therefore shows the decoder's
    message, also when the document holds a movie of that very title. *)
Theorem detail_failure_message t outcome err :
  t ≠ "" →
  fetchMovies outcome = inl err ∨
  ((∃ data, fetchMovies outcome = inr data) ∧ decodeURIComponent t = inl err) →
  MovieDetail.movie
    (MovieDetail.onTitle decodeURIComponent (Some t) outcome
       MovieDetail.initialState) = None ∧
  MovieDetail.page decodeURIComponent (Some t) outcome =
    MovieDetail.MessageView
      (if JS.truthy (messageOf err) then messageOf err else "Movie not found").
Proof.
  intros Hne Hfail.
  assert (JS.truthy t = true) as Ht.
  { unfold JS.truthy. apply negb_true_iff. by apply String.eqb_neq. }
  assert (MovieDetail.tryLookup decodeURIComponent (Some t) outcome = inl err)
    as Htry.
  { unfold MovieDetail.tryLookup. simpl. rewrite Ht.
    destruct Hfail as [->|[[data ->] ->]]; done. }
  unfold MovieDetail.page. rewrite onTitle_with by (simpl; by rewrite Ht).
  rewrite Htry. split; reflexivity.
Qed.

End DetailPage.

Section Example_detail.

#[local] Existing Instance JS.ascii_runtime.

Lemma detail_shows_looked_up_record_witness :
  ∃ t data decodedTitle before after,
    Some "ALIEN" = Some t ∧ t ≠ "" ∧
    fetchMovies (Responded true (inr {| total_movies := 3;
                   movies := [heat1995; alien1979; alien2019] |})) = inr data ∧
    JS.decodeURIComponent_ascii t = inr decodedTitle ∧
    movies data = before ++ alien1979 :: after ∧
    eq_ignore_case (title alien1979) decodedTitle ∧
    ∀ m', m' ∈ before → ¬ eq_ignore_case (title m') decodedTitle.
Proof.
  apply (detail_shows_looked_up_record JS.decodeURIComponent_ascii
           (Some "ALIEN")). reflexivity.
Defined.

Lemma detail_failure_message_witness :
  MovieDetail.page JS.decodeURIComponent_ascii (Some "100%")
    (Responded true (inr {| total_movies := 1;
                            movies := [sample "100%" "2000"] |}))
  = MovieDetail.MessageView "URI malformed".
Proof.
  apply (detail_failure_message JS.decodeURIComponent_ascii "100%"
           (Responded true (inr {| total_movies := 1;
                                   movies := [sample "100%" "2000"] |}))
           JS.URIError); [done|].
  right. split; [by eexists | reflexivity].
Defined.

End Example_detail.

(** ** The cache headers of the server *)

Section CacheHeaders.

Implicit Types (url : string) (headers : gmap string string).

Lemma String_endsWith_true s suffix :
  JS.String_endsWith s suffix = true ↔ ends_with s suffix.
Proof.
  unfold ends_with. induction s as [|c s IH].
  - change (JS.String_endsWith "" suffix) with (String.eqb "" suffix || false).
    rewrite orb_false_r, String.eqb_eq. split.
    + intros <-. by exists "".
    + intros [before H]. destruct before; by unfold_append.
  - change (JS.String_endsWith (String c s) suffix)
      with (String.eqb (String c s) suffix || JS.String_endsWith s suffix).
    rewrite orb_true_iff, String.eqb_eq, IH. split.
    + intros [<-|[before ->]]; [by exists ""|].
      exists (String c before). by unfold_append.
    + intros [before H]. destruct before as [|c' before]; unfold_append.
      * by left.
      * right. exists before. congruence.
Qed.

Lemma isAsset_true url :
  Server.isAsset url = true ↔
  ∃ ext, ext ∈ Server.ASSET_EXTENSIONS ∧ ends_with url ("." +:+ ext).
Proof.
  unfold Server.isAsset. rewrite existsb_exists.
  split; intros (ext & Hext & Hends); exists ext;
    (split; [by apply list_elem_of_In | by apply String_endsWith_true]).
Qed.

Lemma isData_true url : Server.isData url = true ↔ substring_of "/data/" url.
Proof. apply String_includes_true. Qed.

Lemma isHtml_true url :
  Server.isHtml url = true ↔ ends_with url ".html" ∨ url = "/".
Proof.
  unfold Server.isHtml. by rewrite orb_true_iff, String_endsWith_true,
    String.eqb_eq.
Qed.

(** X17: the middleware touches one header only: whatever the address,
    every header other than cache-control keeps its value, none is removed,
    and cache-control ends as it was or as one of the three policies. *)
Theorem cacheHeaders_frame url headers :
  (∀ name, name ≠ "cache-control" →
           Server.cacheHeaders url headers !! name = headers !! name) ∧
  (Server.cacheHeaders url headers !! "cache-control"
     = headers !! "cache-control" ∨
   Server.cacheHeaders url headers !! "cache-control"
     ∈ [Some Server.ASSET_POLICY; Some Server.DATA_POLICY;
        Some Server.HTML_POLICY]) ∧
  dom headers ⊆ dom (Server.cacheHeaders url headers).
Proof.
  unfold Server.cacheHeaders, Server.setHeader. cbv zeta.
  change (JS.toLowerCase_ascii "Cache-Control") with "cache-control".
  destruct (Server.isAsset url), (Server.isData url), (Server.isHtml url);
    (split_and!;
     [ intros name Hname; by rewrite ?lookup_insert_ne
     | rewrite ?lookup_insert_eq; first [by left | right; set_solver]
     | rewrite ?dom_insert_L; set_solver ]).
Qed.

(** X18: which policy an address gets. The rule written last wins: an
    address that ends in .html, or is exactly "/", gets the five-minute
    policy; otherwise one that contains /data/ gets the one-day policy,
    also when it ends in an asset extension; otherwise one that ends in
    an asset extension gets the immutable one-year policy; any other
    address, such as "/" followed by a query string, leaves the headers as
    they are. *)
Theorem cacheHeaders_policy url headers :
  (ends_with url ".html" ∨ url = "/" →
   Server.cacheHeaders url headers !! "cache-control" = Some Server.HTML_POLICY) ∧
  (¬ (ends_with url ".html" ∨ url = "/") → substring_of "/data/" url →
   Server.cacheHeaders url headers !! "cache-control" = Some Server.DATA_POLICY) ∧
  (¬ (ends_with url ".html" ∨ url = "/") → ¬ substring_of "/data/" url →
   (∃ ext, ext ∈ Server.ASSET_EXTENSIONS ∧ ends_with url ("." +:+ ext)) →
   Server.cacheHeaders url headers !! "cache-control" = Some Server.ASSET_POLICY) ∧
  (¬ (ends_with url ".html" ∨ url = "/") → ¬ substring_of "/data/" url →
   ¬ (∃ ext, ext ∈ Server.ASSET_EXTENSIONS ∧ ends_with url ("." +:+ ext)) →
   Server.cacheHeaders url headers = headers).
Proof.
  rewrite <- isHtml_true, <- isData_true, <- isAsset_true.
  unfold Server.cacheHeaders, Server.setHeader. cbv zeta.
  change (JS.toLowerCase_ascii "Cache-Control") with "cache-control".
  destruct (Server.isAsset url), (Server.isData url), (Server.isHtml url);
    split_and!; intros; try done; by rewrite ?lookup_insert_eq.
Qed.

End CacheHeaders.

Lemma cacheHeaders_policy_witness :
  Server.cacheHeaders "/data/posters/heat.png" ∅ !! "cache-control"
    = Some Server.DATA_POLICY ∧
  Server.cacheHeaders "/?search=heat" {["etag" := "abc"]} = {["etag" := "abc"]}.
Proof.
  split.
  - apply (cacheHeaders_policy "/data/posters/heat.png" ∅).
    + intros H%isHtml_true. discriminate.
    + by apply isData_true.
  - apply (cacheHeaders_policy "/?search=heat" {["etag" := "abc"]}).
    + intros H%isHtml_true. discriminate.
    + intros H%isData_true. discriminate.
    + intros H%isAsset_true. discriminate.
Defined.

(** ** The option lists as a function of the values *)

Section Canonical.

Lemma lex_lt_asymm x y : lex_lt x y → lex_lt y x → False.
Proof.
  rewrite <- !compare_Lt_lex. intros Hxy Hyx.
  rewrite String.compare_antisym, Hxy in Hyx. discriminate.
Qed.

(** Two duplicate-free lists with the same elements, both arranged by an
    order that no two of their elements satisfy both ways, are equal. *)
Lemma sorted_same_elements {A} (R : A → A → Prop) (l1 l2 : list A) :
  (∀ x y, x ∈ l1 → y ∈ l2 → R x y → R y x → x = y) →
  NoDup l1 → NoDup l2 → (∀ x, x ∈ l1 ↔ x ∈ l2) →
  StronglySorted R l1 → StronglySorted R l2 → l1 = l2.
Proof.
  intros Hanti Hnd1 Hnd2 Helem Hs1 Hs2.
  apply (StronglySorted_unique_strong R); auto using NoDup_Permutation.
Qed.

Lemma filterOptions_NoDup data :
  NoDup (FilterOptions.genres (Home.filterOptions (Some data))) ∧
  NoDup (FilterOptions.years (Home.filterOptions (Some data))) ∧
  NoDup (FilterOptions.ratings (Home.filterOptions (Some data))).
Proof.
  unfold Home.filterOptions. cbv zeta. simpl.
  set (empty := {| Home.allGenres := []; Home.allYears := [];
                   Home.allRatings := [] |}).
  destruct (collect_NoDup (movies data) empty) as (Hg & Hy & Hr).
  { repeat split; apply NoDup_nil_2. }
  by rewrite !Array_sort_perm.
Qed.

Lemma filterOptions_ascending data :
  StronglySorted lex_lt (FilterOptions.genres (Home.filterOptions (Some data))) ∧
  StronglySorted lex_lt (FilterOptions.ratings (Home.filterOptions (Some data))).
Proof.
  unfold Home.filterOptions. cbv zeta. simpl.
  set (empty := {| Home.allGenres := []; Home.allYears := [];
                   Home.allRatings := [] |}).
  destruct (collect_NoDup (movies data) empty) as (Hg & Hy & Hr).
  { repeat split; apply NoDup_nil_2. }
  split; by apply default_sort_ascending.
Qed.

Lemma filterOptions_years_descending data :
  (∀ m, m ∈ movies data → four_digit_year (year m)) →
  StronglySorted parsed_ge (FilterOptions.years (Home.filterOptions (Some data))).
Proof.
  intros Hfour. unfold Home.filterOptions. cbv zeta. simpl.
  set (empty := {| Home.allGenres := []; Home.allYears := [];
                   Home.allRatings := [] |}).
  destruct (collect_elem (movies data) empty) as (_ & Ey & _).
  apply year_sort_descending, Forall_forall.
  intros y [[]%elem_of_nil|(m & Hm & <-)]%Ey.
  destruct (Hfour m Hm) as [Hlen Hdig].
  rewrite parseInt_digits; [done| |done]. by destruct (year m).
Qed.

(** X19: the option lists depend only on which values occur in the
    catalog, not on the order of the records nor on how many records carry
    a value: two catalogs with the same genres offer the same genre list,
    two with the same ratings the same rating list, and two with the same
    years, all of four digits, the same year list. *)
Theorem options_depend_on_values_only data1 data2 :
  ((∀ g, (∃ m, m ∈ movies data1 ∧ g ∈ genres m) ↔
         (∃ m, m ∈ movies data2 ∧ g ∈ genres m)) →
   FilterOptions.genres (Home.filterOptions (Some data1)) =
   FilterOptions.genres (Home.filterOptions (Some data2))) ∧
  ((∀ r, (∃ m, m ∈ movies data1 ∧ rating m = r) ↔
         (∃ m, m ∈ movies data2 ∧ rating m = r)) →
   FilterOptions.ratings (Home.filterOptions (Some data1)) =
   FilterOptions.ratings (Home.filterOptions (Some data2))) ∧
  ((∀ m, m ∈ movies data1 → four_digit_year (year m)) →
   (∀ y, (∃ m, m ∈ movies data1 ∧ year m = y) ↔
         (∃ m, m ∈ movies data2 ∧ year m = y)) →
   FilterOptions.years (Home.filterOptions (Some data1)) =
   FilterOptions.years (Home.filterOptions (Some data2))).
Proof.
  destruct (filterOptions_elem data1) as (Eg1 & Ey1 & Er1).
  destruct (filterOptions_elem data2) as (Eg2 & Ey2 & Er2).
  destruct (filterOptions_NoDup data1) as (Ng1 & Ny1 & Nr1).
  destruct (filterOptions_NoDup data2) as (Ng2 & Ny2 & Nr2).
  destruct (filterOptions_ascending data1) as (Sg1 & Sr1).
  destruct (filterOptions_ascending data2) as (Sg2 & Sr2).
  split_and!.
  - intros Hsame. apply (sorted_same_elements lex_lt); try done.
    + intros x y _ _ Hxy Hyx. destruct (lex_lt_asymm x y Hxy Hyx).
    + intros g. by rewrite Eg1, Eg2.
  - intros Hsame. apply (sorted_same_elements lex_lt); try done.
    + intros x y _ _ Hxy Hyx. destruct (lex_lt_asymm x y Hxy Hyx).
    + intros r. by rewrite Er1, Er2.
  - intros Hfour1 Hsame.
    assert (∀ m, m ∈ movies data2 → four_digit_year (year m)) as Hfour2.
    { intros m Hm. destruct (proj2 (Hsame (year m))) as (m' & Hm' & <-);
        [by exists m | by apply Hfour1]. }
    assert (∀ y, four_digit_year y → JS.parseInt y = Some (decimal 0 y))
      as Hval.
    { intros y [Hlen Hdig]. apply parseInt_digits; [|done]. by destruct y. }
    apply (sorted_same_elements parsed_ge); try done.
    + intros x y (mx & Hmx & <-)%Ey1 (my & Hmy & <-)%Ey2
        (a & b & Ha & Hb & Hle) (b' & a' & Hb' & Ha' & Hge).
      pose proof (Hfour1 mx Hmx) as Hx. pose proof (Hfour2 my Hmy) as Hy.
      rewrite (Hval _ Hx) in Ha, Ha'. rewrite (Hval _ Hy) in Hb, Hb'.
      simplify_eq. apply four_digit_year_inj; [done..|lia].
    + intros y. by rewrite Ey1, Ey2.
    + by apply filterOptions_years_descending.
    + by apply filterOptions_years_descending.
Qed.

End Canonical.

Lemma options_depend_on_values_only_witness :
  FilterOptions.years (Home.filterOptions (Some catalog4)) =
  FilterOptions.years
    (Home.filterOptions
       (Some (withMovies catalog4
                (reverse (movies catalog4) ++ movies catalog4)))) ∧
  FilterOptions.years (Home.filterOptions (Some catalog4))
    = ["2009"; "1995"; "1979"].
Proof.
  split; [|reflexivity].
  apply (options_depend_on_values_only catalog4
           (withMovies catalog4 (reverse (movies catalog4) ++ movies catalog4))).
  - intros m Hm. unfold four_digit_year.
    repeat (apply elem_of_cons in Hm as [->|Hm]);
      [simpl; unfold is_digit; simpl; repeat split; lia..
      |by apply elem_of_nil in Hm].
  - intros y.
    change (movies (withMovies catalog4
                      (reverse (movies catalog4) ++ movies catalog4)))
      with (reverse (movies catalog4) ++ movies catalog4).
    split; intros (m & Hm & Hy); exists m; (split; [|done]).
    + apply elem_of_app. by right.
    + apply elem_of_app in Hm as [Hm%elem_of_reverse|Hm]; done.
Defined.
